(** * olebedev/config: dotted-path access to JSON/YAML configuration trees

    A shallow embedding of the Go package [config] (the configuration
    tree with its accessors, and the environment layer of [envconfig.go])
    and the properties of its path resolver, typed accessors, normalizer and
    environment fallback.

    Conventions of the embedding:
    - a Go [interface{}] value is a [value]; [map[string]interface{}] is a
      [gmap string value], [[]interface{}] a [list value];
    - a Go function returning [(T, error)] returns a pair [T * option error];
      a call that may raise a run-time panic lives in the [go] monad;
    - an [error] built by [fmt.Errorf] is kept as the format string together
      with its arguments;
    - [int] is the 64-bit integer of the gc compiler on amd64, held in [Z];
      [float64] is IEEE binary64, held as a [spec_float]. *)

From Stdlib Require Import ZArith String Ascii List Lia DecimalString.
From Stdlib Require Import Floats.SpecFloat.
From Stdlib Require DecimalPos.
From stdpp Require Import base option list gmap strings fin_maps.

Set Warnings "-register-all".

Local Open Scope string_scope.
Local Open Scope Z_scope.

(** ** Values, errors, panics *)

Definition float64 := spec_float.

(** The dynamic values an [interface{}] holds in this package.  [VOther]
    stands for a value of any other dynamic type, known by its [%T] name. *)
Inductive value :=
| VNil
| VBool (b : bool)
| VFloat64 (f : float64)
| VInt (i : Z)
| VString (s : string)
| VList (l : list value)
| VMap (m : gmap string value)
| VRawMap (m : list (value * value))
| VOther (ty : string).

(** [fmt.Errorf(format, args...)]. *)
Record error := Errorf { format : string; args : list value }.

Inductive panic :=
| IndexOutOfRange (idx : Z) (len : nat).

Inductive go (A : Type) :=
| Done (a : A)
| Panic (p : panic).
Arguments Done {A} a.
Arguments Panic {A} p.

Definition go_bind {A B} (m : go A) (k : A -> go B) : go B :=
  match m with
  | Done a => k a
  | Panic p => Panic p
  end.

Notation "'let*' x ':=' m 'in' k" := (go_bind m (fun x => k))
  (at level 10, x pattern, m at level 100, k at level 200).

(** ** Library functions the package calls *)

Definition is_dot (c : ascii) : bool := Ascii.eqb c ".".

(** [strings.Split(s, ".")]: never empty, [Split "" = [""]]. *)
Fixpoint Split (s : string) : list string :=
  match s with
  | EmptyString => [""]
  | String c r =>
      if is_dot c then "" :: Split r
      else match Split r with
           | h :: t => String c h :: t
           | [] => [String c ""]
           end
  end.

(** [strings.Join(parts, ".")]. *)
Fixpoint Join (parts : list string) : string :=
  match parts with
  | [] => ""
  | [p] => p
  | p :: rest => p ++ "." ++ Join rest
  end.

Definition intSize : Z := 64.

Definition digit_of (c : ascii) : option Z :=
  let n := Z.of_nat (nat_of_ascii c) in
  if (48 <=? n) && (n <=? 57) then Some (n - 48) else None.

(** The digits of [strconv.ParseUint(s, 10, _)], without the range check. *)
Fixpoint parse_digits (acc : Z) (s : string) : option Z :=
  match s with
  | EmptyString => Some acc
  | String c r =>
      match digit_of c with
      | Some d => parse_digits (10 * acc + d) r
      | None => None
      end
  end.

(** [strconv.ParseInt(s, 10, 0)]: [Some n] when the returned error is nil. *)
Definition ParseInt (s : string) : option Z :=
  match s with
  | EmptyString => None
  | String c r =>
      let neg := Ascii.eqb c "-" in
      let body := if Ascii.eqb c "+" || neg then r else s in
      match body with
      | EmptyString => None
      | _ =>
          match parse_digits 0 body with
          | None => None
          | Some un =>
              let cutoff := 2 ^ (intSize - 1) in
              if negb neg && (cutoff <=? un) then None
              else if neg && (cutoff <? un) then None
              else Some (if neg then - un else un)
          end
      end
  end.

(** ** Fetching *)

Definition not_found (parts : list string) (pos : nat) : error :=
  Errorf "Invalid path %q (found: %q; not found: %q)"
    [VString (Join parts); VString (Join (take pos parts));
     VString (Join (drop pos parts))].

(** [get]: the recursion of the source on [pos], driven here by the
    unconsumed suffix [rest = parts[pos:]]; [rest] is empty exactly when
    [pos >= len(parts)], and its head is [parts[pos]].  On a list the guard
    is the one of the source, [int(idx) < len(cfg)]; the index expression
    [cfg[idx]] that follows panics when [idx] is outside the list. *)
Fixpoint get_from (cfg : value) (parts : list string) (pos : nat)
    (rest : list string) {struct rest} : go (value * option error) :=
  match rest with
  | [] => Done (cfg, None)
  | part :: rest' =>
      match cfg with
      | VList l =>
          match ParseInt part with
          | Some idx =>
              if idx <? Z.of_nat (length l) then
                if idx <? 0 then Panic (IndexOutOfRange idx (length l))
                else match l !! Z.to_nat idx with
                     | Some v => get_from v parts (S pos) rest'
                     | None => Panic (IndexOutOfRange idx (length l))
                     end
              else Done (VNil, Some (not_found parts pos))
          | None => Done (VNil, Some (not_found parts pos))
          end
      | VMap m =>
          match m !! part with
          | Some v => get_from v parts (S pos) rest'
          | None => Done (VNil, Some (not_found parts pos))
          end
      | _ => Done (VNil, Some (not_found parts pos))
      end
  end.

Definition get (cfg : value) (parts : list string) (pos : nat)
    : go (value * option error) :=
  get_from cfg parts pos (drop pos parts).

(** The normalising loop of [Get]: [range] walks the slice as it was when
    the loop started, while [parts] is re-sliced at index 0. *)
Fixpoint Get_loop (path : string) (k : nat) (ranged : list string)
    (parts : list string) : list string + error :=
  match ranged with
  | [] => inl parts
  | v :: ranged' =>
      if decide (v = "") then
        if decide (k = 0%nat) then Get_loop path (S k) ranged' (drop 1 parts)
        else inr (Errorf "Invalid path %q" [VString path])
      else Get_loop path (S k) ranged' parts
  end.

Definition Get (cfg : value) (path : string) : go (value * option error) :=
  let parts := Split path in
  match Get_loop path 0 parts parts with
  | inr e => Done (VNil, Some e)
  | inl parts => get cfg parts 0
  end.

(** ** float64 and [fmt.Sprint] *)

Definition prec64 : Z := 53.
Definition emax64 : Z := 1024.

(** The binary64 nearest to [m * 2^e] (ties to even). *)
Definition float64_of (m e : Z) : float64 := binary_normalize prec64 emax64 m e false.

(** The conversion [float64(n)] of an [int]. *)
Definition int_to_float64 (n : Z) : float64 := float64_of n 0.

Definition minInt : Z := - 2 ^ (intSize - 1).
Definition maxInt : Z := 2 ^ (intSize - 1) - 1.

(** The conversion [int(f)]: the fraction is discarded.  Where the result
    does not fit, Go leaves the value to the implementation; amd64 yields
    the most negative integer. *)
Definition float64_to_int (f : float64) : Z :=
  match f with
  | S754_zero _ => 0
  | S754_finite s m e =>
      let mag := if 0 <=? e then Z.pos m * 2 ^ e else Z.pos m / 2 ^ (- e) in
      let t := if s then - mag else mag in
      if (minInt <=? t) && (t <=? maxInt) then t else minInt
  | S754_infinity _ | S754_nan => minInt
  end.

Definition decimal (n : Z) : string := NilZero.string_of_int (Z.to_int n).

(** [fmt.Sprint] of an [int] and of a [bool]. *)
Definition Sprint_int (i : Z) : string := decimal i.
Definition Sprint_bool (b : bool) : string := if b then "true" else "false".

(** Shortest decimal that reads back as the same binary64 (strconv's
    [roundShortest]).  The float is [V/D], the floats next to it are
    separated from it by [L/D] and [U/D]; the bounds belong to the float
    when its mantissa is even.  The digits are tried from the most
    significant position [k] (a power of ten) downwards; at each position the
    float is cut below ([q]) or raised ([q+1]), whichever stays within the
    bounds, the nearer one when both do. *)
Section Shortest.
Variables (V L U D : Z) (inclusive : bool).

Definition num_at (k x : Z) : Z := x * 10 ^ Z.max 0 (- k).
Definition den_at (k : Z) : Z := D * 10 ^ Z.max 0 k.

Fixpoint shortest_walk (fuel : nat) (k : Z) : Z * Z :=
  let den := den_at k in
  let q := num_at k V / den in
  let r := num_at k V mod den in
  let okdown := (num_at k L <? q * den) || inclusive && (num_at k L =? q * den) in
  let okup := ((q + 1) * den <? num_at k U)
              || inclusive && ((q + 1) * den =? num_at k U) in
  let up := (den <? 2 * r) || (den =? 2 * r) && Z.odd q in
  if okdown && okup then (if up then q + 1 else q, k)
  else if okdown then (q, k)
  else if okup then (q + 1, k)
  else match fuel with
       | O => (q, k)
       | S fuel' => shortest_walk fuel' (k - 1)
       end.
End Shortest.

(** Drop the zeros that end a digit string. *)
Fixpoint trim_zeros (s : string) : string :=
  match s with
  | EmptyString => EmptyString
  | String c r =>
      match trim_zeros r with
      | EmptyString => if Ascii.eqb c "0" then EmptyString else String c EmptyString
      | r' => String c r'
      end
  end.

(** The digits [d] and the position [dp] of the decimal point of the
    shortest decimal [0.d * 10^dp] of the positive float [m * 2^e]. *)
Definition shortest_digits (m : positive) (e : Z) : string * Z :=
  let mz := Z.pos m in
  let sh := e - 2 in
  let s := 2 ^ Z.max 0 sh in
  let D := 2 ^ Z.max 0 (- sh) in
  let V := 4 * mz * s in
  let U := (4 * mz + 2) * s in
  let L := (if (mz =? 2 ^ (prec64 - 1)) && (3 - emax64 - prec64 <? e)
            then 4 * mz - 1 else 4 * mz - 2) * s in
  let k0 := Z.of_nat (String.length (decimal (U / D))) in
  let fuel := Z.to_nat (k0 + Z.max 0 (- sh)) in
  let '(q, k) := shortest_walk V L U D (Z.even mz) fuel k0 in
  let ds := decimal q in
  (trim_zeros ds, Z.of_nat (String.length ds) + k).

Fixpoint zeros (n : nat) : string :=
  match n with
  | O => EmptyString
  | S n' => String "0" (zeros n')
  end.

(** [%e] with all the digits: [d.ddde±XX]. *)
Definition fmtE (d : string) (dp : Z) : string :=
  let exp := dp - 1 in
  let mant := match d with
              | EmptyString => "0"
              | String c EmptyString => String c EmptyString
              | String c r => String c (String "." r)
              end in
  let ex := decimal (Z.abs exp) in
  mant ++ "e" ++ (if exp <? 0 then "-" else "+")
       ++ (if Z.abs exp <? 10 then "0" else "") ++ ex.

(** [%f] with all the digits. *)
Definition fmtF (d : string) (dp : Z) : string :=
  let nd := Z.of_nat (String.length d) in
  let int_part :=
    if 0 <? dp
    then substring 0 (Z.to_nat (Z.min nd dp)) d ++ zeros (Z.to_nat (dp - nd))
    else "0" in
  let frac :=
    if dp <? nd
    then "." ++ zeros (Z.to_nat (- dp)) ++ substring (Z.to_nat dp) (Z.to_nat nd) d
    else "" in
  int_part ++ frac.

(** [%g] with the shortest digits: [%e] when the exponent is below -4 or
    at least 6. *)
Definition eprec_shortest : Z := 6.

Definition fmtG (d : string) (dp : Z) : string :=
  let exp := dp - 1 in
  if (exp <? -4) || (eprec_shortest <=? exp) then fmtE d dp else fmtF d dp.

(** [fmt.Sprint] of a [float64] (the verb [%v]). *)
Definition Sprint_float64 (f : float64) : string :=
  match f with
  | S754_nan => "NaN"
  | S754_infinity s => if s then "-Inf" else "+Inf"
  | S754_zero s => if s then "-0" else "0"
  | S754_finite s m e =>
      let '(d, dp) := shortest_digits m e in
      (if s then "-" else "") ++ fmtG d dp
  end.

(** [strconv.ParseBool]: [Some b] when the returned error is nil. *)
Definition ParseBool (s : string) : option bool :=
  if bool_decide (s ∈ ["1"; "t"; "T"; "true"; "TRUE"; "True"]) then Some true
  else if bool_decide (s ∈ ["0"; "f"; "F"; "false"; "FALSE"; "False"]) then Some false
  else None.

(** ** Config *)

Record Config := { Root : value }.

(** [typeMismatch] returns an error for an expected type. *)
Definition typeMismatch (expected : string) (got : value) : error :=
  Errorf "Type mismatch: expected %s, got %T" [VString expected; got].

(** [Config.Get] returns a nested config according to a dotted path. *)
Definition Config_Get (cfg : Config) (path : string)
    : go (option Config * option error) :=
  let* (n, err) := Get (Root cfg) path in
  match err with
  | Some e => Done (None, Some e)
  | None => Done (Some {| Root := n |}, None)
  end.

(** [Config.Bool] returns a bool according to a dotted path. *)
Definition Config_Bool (cfg : Config) (path : string) : go (bool * option error) :=
  let* (n, err) := Get (Root cfg) path in
  match err with
  | Some e => Done (false, Some e)
  | None =>
      match n with
      | VBool b => Done (b, None)
      | VString s =>
          match ParseBool s with
          | Some v => Done (v, None)
          | None => Done (false, Some (typeMismatch "bool" n))
          end
      | _ => Done (false, Some (typeMismatch "bool" n))
      end
  end.

(** [Config.Int] returns an int according to a dotted path. *)
Definition Config_Int (cfg : Config) (path : string) : go (Z * option error) :=
  let* (n, err) := Get (Root cfg) path in
  match err with
  | Some e => Done (0, Some e)
  | None =>
      match n with
      | VFloat64 f =>
          let i := float64_to_int f in
          if decide (Sprint_int i = Sprint_float64 f) then Done (i, None)
          else Done (0, Some (typeMismatch "int" n))
      | VInt i => Done (i, None)
      | VString s =>
          match ParseInt s with
          | Some v => Done (v, None)
          | None => Done (0, Some (typeMismatch "int" n))
          end
      | _ => Done (0, Some (typeMismatch "int" n))
      end
  end.

(** [Config.List] returns a [[]interface{}] according to a dotted path. *)
Definition Config_List (cfg : Config) (path : string)
    : go (list value * option error) :=
  let* (n, err) := Get (Root cfg) path in
  match err with
  | Some e => Done ([], Some e)
  | None =>
      match n with
      | VList l => Done (l, None)
      | _ => Done ([], Some (typeMismatch "[]interface{}" n))
      end
  end.

(** [Config.Map] returns a [map[string]interface{}] according to a dotted path. *)
Definition Config_Map (cfg : Config) (path : string)
    : go (gmap string value * option error) :=
  let* (n, err) := Get (Root cfg) path in
  match err with
  | Some e => Done (∅, Some e)
  | None =>
      match n with
      | VMap m => Done (m, None)
      | _ => Done (∅, Some (typeMismatch "map[string]interface{}" n))
      end
  end.

(** [Config.String] returns a string according to a dotted path. *)
Definition Config_String (cfg : Config) (path : string)
    : go (string * option error) :=
  let* (n, err) := Get (Root cfg) path in
  match err with
  | Some e => Done ("", Some e)
  | None =>
      match n with
      | VBool b => Done (Sprint_bool b, None)
      | VFloat64 f => Done (Sprint_float64 f, None)
      | VInt i => Done (Sprint_int i, None)
      | VString s => Done (s, None)
      | _ => Done ("", Some (typeMismatch "string" n))
      end
  end.

(** The float zero, [float64(0)]. *)
Definition float64_zero : float64 := S754_zero false.

(** [Config.Float64] returns a float64 according to a dotted path.
    [ParseFloat s] is [Some f] when [strconv.ParseFloat(s, 64)] returns [f]
    with a nil error. *)
Definition Config_Float64 (ParseFloat : string -> option float64)
    (cfg : Config) (path : string) : go (float64 * option error) :=
  let* (n, err) := Get (Root cfg) path in
  match err with
  | Some e => Done (float64_zero, Some e)
  | None =>
      match n with
      | VFloat64 f => Done (f, None)
      | VInt i => Done (int_to_float64 i, None)
      | VString s =>
          match ParseFloat s with
          | Some v => Done (v, None)
          | None => Done (float64_zero, Some (typeMismatch "float64" n))
          end
      | _ => Done (float64_zero, Some (typeMismatch "float64" n))
      end
  end.

(** ** Parsing: the normalizer *)

(** [normalizeValue] normalizes an unmarshalled value.  A map is walked in
    the order [map_fold] (for a string-keyed map) or the list of entries (for
    an [interface{}]-keyed one) presents it; Go leaves that order open. *)
Fixpoint normalizeValue (raw : value) : value * option error :=
  match raw with
  | VRawMap m =>
      (fix loop (kvs : list (value * value))
                (node : gmap string value) :=
         match kvs with
         | [] => (VMap node, None)
         | (k, v) :: kvs' =>
             match k with
             | VString key =>
                 match normalizeValue v with
                 | (item, None) => loop kvs' (<[key := item]> node)
                 | (_, Some _) =>
                     (VNil, Some (Errorf "Unsupported map value: %#v" [v]))
                 end
             | _ => (VNil, Some (Errorf "Unsupported map key: %#v" [k]))
             end
         end) m ∅
  | VMap m =>
      match map_fold (fun key v acc =>
                        match acc with
                        | inl node =>
                            match normalizeValue v with
                            | (item, None) => inl (<[key := item]> node)
                            | (_, Some _) =>
                                inr (Errorf "Unsupported map value: %#v" [v])
                            end
                        | inr e => inr e
                        end) (inl ∅) m with
      | inl node => (VMap node, None)
      | inr e => (VNil, Some e)
      end
  | VList l =>
      match (fix loop (vs : list value) : list value + error :=
               match vs with
               | [] => inl []
               | v :: vs' =>
                   match normalizeValue v with
                   | (item, None) =>
                       match loop vs' with
                       | inl node => inl (item :: node)
                       | inr e => inr e
                       end
                   | (_, Some _) =>
                       inr (Errorf "Unsupported list item: %#v" [v])
                   end
               end) l with
      | inl node => (VList node, None)
      | inr e => (VNil, Some e)
      end
  | VBool _ | VFloat64 _ | VInt _ | VString _ => (raw, None)
  | VNil | VOther _ => (VNil, Some (Errorf "Unsupported type: %T" [raw]))
  end.

(** ** Mutation *)

(** Modelled from the spec: the mutator behind [Config.Set], whose code is
    not among the sources ([envconfig.go] only calls it).  It walks the
    segments like [get]; in a map a missing key is created holding an empty
    map and the walk goes on inside it; in a list the segment has to be an
    index within the list; the slot of the last segment receives the
    value.  The tree is passed in and the written tree is returned; on
    failure nothing is written. *)
Fixpoint set_from (cfg : value) (parts : list string) (pos : nat)
    (rest : list string) (val : value) {struct rest} : value + error :=
  match rest with
  | [] => inl cfg
  | part :: rest' =>
      match cfg with
      | VMap m =>
          match rest' with
          | [] => inl (VMap (<[part := val]> m))
          | _ =>
              let child := default (VMap ∅) (m !! part) in
              match set_from child parts (S pos) rest' val with
              | inl child' => inl (VMap (<[part := child']> m))
              | inr e => inr e
              end
          end
      | VList l =>
          match ParseInt part with
          | Some idx =>
              match (if 0 <=? idx then l !! Z.to_nat idx else None) with
              | Some child =>
                  match rest' with
                  | [] => inl (VList (<[Z.to_nat idx := val]> l))
                  | _ =>
                      match set_from child parts (S pos) rest' val with
                      | inl child' => inl (VList (<[Z.to_nat idx := child']> l))
                      | inr e => inr e
                      end
                  end
              | None => inr (not_found parts pos)
              end
          | None => inr (not_found parts pos)
          end
      | _ => inr (not_found parts pos)
      end
  end.

(** Modelled from the spec: [Set(cfg, path, value)]; the path is split and
    checked by the rules of [Get], the value is normalized before it is
    stored. *)
Definition Set_ (cfg : value) (path : string) (val : value)
    : value * option error :=
  let parts := Split path in
  match Get_loop path 0 parts parts with
  | inr e => (cfg, Some e)
  | inl parts =>
      match normalizeValue val with
      | (_, Some _) => (cfg, Some (Errorf "Unsupported value: %#v" [val]))
      | (item, None) =>
          match set_from cfg parts 0 parts item with
          | inl cfg' => (cfg', None)
          | inr e => (cfg, Some e)
          end
      end
  end.

(** Modelled from the spec: the method [Config.Set], which writes into the
    tree under [Root]. *)
Definition Config_Set (cfg : Config) (path : string) (val : value)
    : Config * option error :=
  let '(root, err) := Set_ (Root cfg) path val in
  ({| Root := root |}, err).

(** ** EnvConfig *)

(** [EnvConfig] provides convenient access to settings for an environment;
    [Cfg] is the field [Config *Config]. *)
Record EnvConfig := { Env : string; Cfg : Config }.

(** [EnvConfig.Get] returns a nested config according to a dotted path. *)
Definition EnvConfig_Get (c : EnvConfig) (path : string)
    : go (option Config * option error) :=
  Config_Get (Cfg c) path.

(** [EnvConfig.Set] sets a nested config according to a dotted path. *)
Definition EnvConfig_Set (c : EnvConfig) (path : string) (val : value)
    : EnvConfig * option error :=
  let '(cfg, err) := Config_Set (Cfg c) path val in
  ({| Env := Env c; Cfg := cfg |}, err).

Definition EnvConfig_Bool (c : EnvConfig) (path : string)
    : go (bool * option error) :=
  let* (val, err) := Config_Bool (Cfg c) (Env c ++ "." ++ path) in
  match err with
  | Some _ => Config_Bool (Cfg c) path
  | None => Done (val, err)
  end.

Definition EnvConfig_Float64 (ParseFloat : string -> option float64)
    (c : EnvConfig) (path : string) : go (float64 * option error) :=
  let* (val, err) := Config_Float64 ParseFloat (Cfg c) (Env c ++ "." ++ path) in
  match err with
  | Some _ => Config_Float64 ParseFloat (Cfg c) path
  | None => Done (val, err)
  end.

Definition EnvConfig_Int (c : EnvConfig) (path : string)
    : go (Z * option error) :=
  let* (val, err) := Config_Int (Cfg c) (Env c ++ "." ++ path) in
  match err with
  | Some _ => Config_Int (Cfg c) path
  | None => Done (val, err)
  end.

Definition EnvConfig_List (c : EnvConfig) (path : string)
    : go (list value * option error) :=
  let* (val, err) := Config_List (Cfg c) (Env c ++ "." ++ path) in
  match err with
  | Some _ => Config_List (Cfg c) path
  | None => Done (val, err)
  end.

Definition EnvConfig_Map (c : EnvConfig) (path : string)
    : go (gmap string value * option error) :=
  let* (val, err) := Config_Map (Cfg c) (Env c ++ "." ++ path) in
  match err with
  | Some _ => Config_Map (Cfg c) path
  | None => Done (val, err)
  end.

Definition EnvConfig_String (c : EnvConfig) (path : string)
    : go (string * option error) :=
  let* (val, err) := Config_String (Cfg c) (Env c ++ "." ++ path) in
  match err with
  | Some _ => Config_String (Cfg c) path
  | None => Done (val, err)
  end.

(** The or-default variants: the value, else the first of [defaults], else
    the zero value. *)
Definition or_default {A} (r : go (A * option error)) (defaults : list A)
    (zero : A) : go A :=
  let* (val, err) := r in
  match err with
  | None => Done val
  | Some _ => Done (hd zero defaults)
  end.

Definition EnvConfig_UBool (c : EnvConfig) (path : string)
    (defaults : list bool) : go bool :=
  or_default (EnvConfig_Bool c path) defaults false.

Definition EnvConfig_UFloat64 (ParseFloat : string -> option float64)
    (c : EnvConfig) (path : string) (defaults : list float64) : go float64 :=
  or_default (EnvConfig_Float64 ParseFloat c path) defaults float64_zero.

Definition EnvConfig_UInt (c : EnvConfig) (path : string)
    (defaults : list Z) : go Z :=
  or_default (EnvConfig_Int c path) defaults 0.

Definition EnvConfig_UList (c : EnvConfig) (path : string)
    (defaults : list (list value)) : go (list value) :=
  or_default (EnvConfig_List c path) defaults [].

Definition EnvConfig_UMap (c : EnvConfig) (path : string)
    (defaults : list (gmap string value)) : go (gmap string value) :=
  or_default (EnvConfig_Map c path) defaults ∅.

Definition EnvConfig_UString (c : EnvConfig) (path : string)
    (defaults : list string) : go string :=
  or_default (EnvConfig_String c path) defaults "".

(** ** Sample trees *)

Definition tree (x y z : value) : value :=
  VMap {[ "a" := VMap {[ "b" := VList [x; y; z] ]} ]}.

Definition hosts : value :=
  VMap {[ "dev" := VMap {[ "host" := VString "h1" ]}; "host" := VString "h2" ]}.

(** The floats 42.0 and 42.5, and the float 1000000.0. *)
Definition f42 : float64 := float64_of 42 0.
Definition f42_5 : float64 := float64_of 85 (-1).
Definition f1e6 : float64 := float64_of 1000000 0.

Definition dev : EnvConfig := {| Env := "dev"; Cfg := {| Root := hosts |} |}.
Definition prod : EnvConfig := {| Env := "prod"; Cfg := {| Root := hosts |} |}.

(** The errors [typeMismatch] builds. *)
Definition is_type_mismatch (e : error) : Prop :=
  format e = "Type mismatch: expected %s, got %T".

(** The three loops of [normalizeValue], by name. *)
Fixpoint normalize_items (vs : list value) : list value + error :=
  match vs with
  | [] => inl []
  | v :: vs' =>
      match normalizeValue v with
      | (item, None) =>
          match normalize_items vs' with
          | inl node => inl (item :: node)
          | inr e => inr e
          end
      | (_, Some _) => inr (Errorf "Unsupported list item: %#v" [v])
      end
  end.

Definition normalize_entry (key : string) (v : value)
    (acc : gmap string value + error) : gmap string value + error :=
  match acc with
  | inl node =>
      match normalizeValue v with
      | (item, None) => inl (<[key := item]> node)
      | (_, Some _) => inr (Errorf "Unsupported map value: %#v" [v])
      end
  | inr e => inr e
  end.

Fixpoint normalize_raw_entries (kvs : list (value * value))
    (node : gmap string value) : value * option error :=
  match kvs with
  | [] => (VMap node, None)
  | (k, v) :: kvs' =>
      match k with
      | VString key =>
          match normalizeValue v with
          | (item, None) => normalize_raw_entries kvs' (<[key := item]> node)
          | (_, Some _) => (VNil, Some (Errorf "Unsupported map value: %#v" [v]))
          end
      | _ => (VNil, Some (Errorf "Unsupported map key: %#v" [k]))
      end
  end.

(** The number of nodes of a value, the measure of the induction on values. *)
Fixpoint value_size (v : value) : nat :=
  match v with
  | VList l => S (foldr (fun x acc => value_size x + acc)%nat 0%nat l)
  | VMap m => S (map_fold (fun _ x acc => value_size x + acc)%nat 0%nat m)
  | VRawMap m =>
      S (foldr (fun '(k, x) acc => value_size k + value_size x + acc)%nat 0%nat m)
  | _ => 1
  end.

(** The shape of a normalized tree: every node is a bool, a float64, an
    int, a string, a list or a string-keyed map. *)
Inductive canonical : value -> Prop :=
| canonical_bool b : canonical (VBool b)
| canonical_float64 f : canonical (VFloat64 f)
| canonical_int i : canonical (VInt i)
| canonical_string s : canonical (VString s)
| canonical_list l : Forall canonical l -> canonical (VList l)
| canonical_map m : map_Forall (fun _ => canonical) m -> canonical (VMap m).

(** Some node of the value is a native [int]. *)
Inductive holds_int : value -> Prop :=
| holds_int_here i : holds_int (VInt i)
| holds_int_item l v : v ∈ l -> holds_int v -> holds_int (VList l)
| holds_int_entry m k v : m !! k = Some v -> holds_int v -> holds_int (VMap m).

(** The string holds a dot. *)
Fixpoint has_dot (s : string) : bool :=
  match s with
  | EmptyString => false
  | String c r => is_dot c || has_dot r
  end.

(** The raw values the normalizer accepts: no nil, no value of another
    type, and every key of an [interface{}]-keyed map a string. *)
Inductive supported : value -> Prop :=
| supported_bool b : supported (VBool b)
| supported_float64 f : supported (VFloat64 f)
| supported_int i : supported (VInt i)
| supported_string s : supported (VString s)
| supported_list l : Forall supported l -> supported (VList l)
| supported_map m : map_Forall (fun _ => supported) m -> supported (VMap m)
| supported_raw_map m :
    Forall (fun kv => (exists key, kv.1 = VString key) /\ supported kv.2) m ->
    supported (VRawMap m).

(** The node has no child that [get] would reach by the segment. *)
Definition no_child (n : value) (part : string) : Prop :=
  match n with
  | VList l => forall idx, ParseInt part = Some idx -> Z.of_nat (length l) <= idx
  | VMap m => m !! part = None
  | _ => True
  end.

(** [parseJson] performs the real JSON parsing.  [Unmarshal cfg] is what
    [json.Unmarshal(cfg, &out)] leaves in [out], with the error it returns. *)
Definition parseJson (Unmarshal : string -> value * option error)
    (cfg : string) : option Config * option error :=
  let '(out, err) := Unmarshal cfg in
  match err with
  | Some e => (None, Some e)
  | None =>
      let '(out, err) := normalizeValue out in
      match err with
      | Some e => (None, Some e)
      | None => (Some {| Root := out |}, None)
      end
  end.

(** [ParseJson] reads a JSON configuration from the given string. *)
Definition ParseJson (Unmarshal : string -> value * option error)
    (cfg : string) : option Config * option error :=
  parseJson Unmarshal cfg.

(** [parseYaml] performs the real YAML parsing, with [goyaml.Unmarshal]. *)
Definition parseYaml (Unmarshal : string -> value * option error)
    (cfg : string) : option Config * option error :=
  let '(out, err) := Unmarshal cfg in
  match err with
  | Some e => (None, Some e)
  | None =>
      let '(out, err) := normalizeValue out in
      match err with
      | Some e => (None, Some e)
      | None => (Some {| Root := out |}, None)
      end
  end.

(** [ParseYaml] reads a YAML configuration from the given string. *)
Definition ParseYaml (Unmarshal : string -> value * option error)
    (cfg : string) : option Config * option error :=
  parseYaml Unmarshal cfg.

(** * Properties *)

(** ** The shape of [get] and of the loop of [Get] *)

(** [get] as the source writes it: a test on [pos], then a switch on the
    node at hand. *)
Lemma get_unfold (cfg : value) (parts : list string) (pos : nat) :
  get cfg parts pos =
    match parts !! pos with
    | None => Done (cfg, None)
    | Some part =>
        match cfg with
        | VList l =>
            match ParseInt part with
            | Some idx =>
                if idx <? Z.of_nat (length l) then
                  if idx <? 0 then Panic (IndexOutOfRange idx (length l))
                  else match l !! Z.to_nat idx with
                       | Some v => get v parts (S pos)
                       | None => Panic (IndexOutOfRange idx (length l))
                       end
                else Done (VNil, Some (not_found parts pos))
            | None => Done (VNil, Some (not_found parts pos))
            end
        | VMap m =>
            match m !! part with
            | Some v => get v parts (S pos)
            | None => Done (VNil, Some (not_found parts pos))
            end
        | _ => Done (VNil, Some (not_found parts pos))
        end
    end.
Proof.
  unfold get.
  destruct (parts !! pos) as [part|] eqn:Hp.
  - rewrite (drop_S _ _ _ Hp). reflexivity.
  - rewrite drop_ge; [reflexivity|]. by apply lookup_ge_None.
Qed.

(** After index 0 the loop only checks: it fails on the first empty
    segment and otherwise leaves [parts] alone. *)
Lemma Get_loop_S (path : string) (k : nat) (ranged parts : list string) :
  Get_loop path (S k) ranged parts =
    if decide ("" ∈ ranged) then inr (Errorf "Invalid path %q" [VString path])
    else inl parts.
Proof.
  revert k. induction ranged as [|v ranged IH]; intros k; cbn [Get_loop].
  - rewrite decide_False; [reflexivity|]. apply not_elem_of_nil.
  - destruct (decide (v = "")) as [->|Hv].
    + rewrite decide_False by lia.
      rewrite decide_True; [reflexivity|]. apply elem_of_cons; by left.
    + rewrite IH. destruct (decide ("" ∈ ranged)) as [Hin|Hin].
      * rewrite decide_True; [reflexivity|]. apply elem_of_cons; by right.
      * rewrite decide_False; [reflexivity|].
        intros [?|?]%elem_of_cons; [by apply Hv|by apply Hin].
Qed.

(** The whole loop: an empty segment other than the first is an error, an
    empty first segment is dropped. *)
Lemma Get_loop_spec (path : string) (parts : list string) :
  Get_loop path 0 parts parts =
    if decide ("" ∈ tail parts) then inr (Errorf "Invalid path %q" [VString path])
    else inl (if decide (head parts = Some "") then tail parts else parts).
Proof.
  destruct parts as [|v rest]; cbn [Get_loop tail head].
  - rewrite decide_False; [|apply not_elem_of_nil].
    rewrite decide_False; [reflexivity|discriminate].
  - destruct (decide (v = "")) as [->|Hv]; rewrite ?decide_True by done;
      rewrite Get_loop_S.
    + cbn [drop]. destruct (decide ("" ∈ rest)); reflexivity.
    + destruct (decide ("" ∈ rest)); [reflexivity|].
      rewrite decide_False; [reflexivity|]. intros [=]. by apply Hv.
Qed.

Lemma Split_cons_dot (p : string) : Split (String "." p) = "" :: Split p.
Proof. reflexivity. Qed.

Lemma Split_not_nil (s : string) : Split s ≠ [].
Proof.
  induction s as [|c r IH]; simpl; [discriminate|].
  destruct (is_dot c); [discriminate|]. destruct (Split r); discriminate.
Qed.

(** ** Path resolution *)

(** C1.  In the tree [{"a": {"b": [10, 20, 30]}}], whatever Go type [num]
    the numbers have, the path "a.b.1" resolves to 20, and "a.b.5" fails
    with the not-found error that reports the path "a.b.5", the consumed
    prefix "a.b" and the remaining suffix "5". *)
Theorem Get_list_index (num : Z -> value) :
  Get (tree (num 10) (num 20) (num 30)) "a.b.1" = Done (num 20, None) /\
  Get (tree (num 10) (num 20) (num 30)) "a.b.5" =
    Done (VNil, Some (Errorf "Invalid path %q (found: %q; not found: %q)"
                        [VString "a.b.5"; VString "a.b"; VString "5"])).
Proof. split; reflexivity. Qed.

(** C2.  For every root and path: when a segment other than the first is
    empty, [Get] fails with the invalid-path error; otherwise an empty first
    segment is dropped and [get] runs on the segments that remain, so that a
    path written with a leading dot resolves as the path without it; and the
    empty path resolves to the root itself. *)
Theorem Get_path_splitting (root : value) (path : string) :
  ("" ∈ tail (Split path) ->
     Get root path = Done (VNil, Some (Errorf "Invalid path %q" [VString path]))) /\
  ("" ∉ tail (Split path) -> head (Split path) = Some "" ->
     Get root path = get root (tail (Split path)) 0) /\
  ("" ∉ tail (Split path) -> head (Split path) <> Some "" ->
     Get root path = get root (Split path) 0) /\
  ("" ∉ Split path -> Get root (String "." path) = Get root path) /\
  Get root "" = Done (root, None).
Proof.
  unfold Get. repeat split.
  - intros Hin. by rewrite Get_loop_spec, decide_True.
  - intros Hin Hhd. by rewrite Get_loop_spec, decide_False, decide_True.
  - intros Hin Hhd. by rewrite Get_loop_spec, decide_False, decide_False.
  - intros Hin. rewrite Split_cons_dot, !Get_loop_spec. simpl.
    rewrite (decide_False (P := "" ∈ Split path)) by done.
    rewrite (decide_False (P := "" ∈ tail (Split path))).
    + rewrite (decide_False (P := head (Split path) = Some "")); [done|].
      destruct (Split path) as [|v rest]; [done|]. simpl. intros [= ->].
      apply Hin, elem_of_cons; by left.
    + intros Ht. apply Hin. destruct (Split path); [done|].
      apply elem_of_cons; by right.
Qed.

(** On a list node a segment that parses as a negative integer passes the
    guard and panics in the index expression, whatever follows it. *)
Lemma get_from_negative_index (l : list value) (parts : list string)
    (pos : nat) (part : string) (rest : list string) (idx : Z) :
  ParseInt part = Some idx -> idx < 0 ->
  get_from (VList l) parts pos (part :: rest) =
    Panic (IndexOutOfRange idx (length l)).
Proof.
  intros Hp Hneg. cbn [get_from]. rewrite Hp.
  rewrite (proj2 (Z.ltb_lt _ _)) by lia.
  by rewrite (proj2 (Z.ltb_lt idx 0)).
Qed.

(** C3 (the code breaks it).  On a list node the segment "-1" parses as the
    integer -1, passes the test [int(idx) < len(cfg)] and reaches the index
    expression [cfg[idx]], which panics: no error value is returned. *)
Theorem Get_negative_index_panics (l : list value) :
  Get (VList l) "-1" = Panic (IndexOutOfRange (-1) (length l)).
Proof.
  assert (Hp : ParseInt "-1" = Some (-1)) by reflexivity.
  unfold Get. change (Split "-1") with ["-1"].
  change (Get_loop "-1" 0 ["-1"] ["-1"]) with (inl ["-1"] : list string + error).
  cbv beta iota. rewrite get_unfold.
  change (["-1"] !! 0%nat) with (Some "-1"). cbv beta iota. rewrite Hp.
  destruct (Z.ltb_spec (-1) (Z.of_nat (length l))); [reflexivity|lia].
Qed.

(** ** Typed accessors *)

(** An error of [get] is the not-found error of some position, returned
    with a nil node. *)
Lemma get_from_error (rest : list string) :
  forall cfg parts pos v e,
    get_from cfg parts pos rest = Done (v, Some e) ->
    v = VNil /\ exists pos', e = not_found parts pos'.
Proof.
  induction rest as [|part rest IH]; intros cfg parts pos v e; cbn [get_from].
  - intros [=].
  - destruct cfg; try (intros [= <- <-]; eauto).
    + destruct (ParseInt part) as [idx|]; [|intros [= <- <-]; eauto].
      destruct (idx <? Z.of_nat (length l)); [|intros [= <- <-]; eauto].
      destruct (idx <? 0); [intros [=]|].
      destruct (l !! Z.to_nat idx); [apply IH|intros [=]].
    + destruct (m !! part); [apply IH|intros [= <- <-]; eauto].
Qed.

(** An error of [Get] comes with a nil node and is never a type mismatch. *)
Lemma Get_error (root : value) (path : string) (v : value) (e : error) :
  Get root path = Done (v, Some e) -> v = VNil /\ ~ is_type_mismatch e.
Proof.
  unfold Get. destruct (Get_loop path 0 (Split path) (Split path)) as [parts|e'] eqn:Hl.
  - intros H. apply get_from_error in H as [-> [pos' ->]]. split; [done|].
    unfold is_type_mismatch; simpl. discriminate.
  - rewrite Get_loop_spec in Hl. destruct (decide _); [|discriminate].
    injection Hl as <-. intros [= <- <-]. split; [done|].
    unfold is_type_mismatch; simpl. discriminate.
Qed.

(** C4.  [Int] on a node holding the float 42.0 returns 42; on a node
    holding 42.5 it fails with the type-mismatch error; and on any node
    holding a float [f] it returns [int(f)] when [fmt.Sprint(int(f))] and
    [fmt.Sprint(f)] are the same text and fails with the type-mismatch error
    when they differ, so that it succeeds exactly when the two texts agree. *)
Theorem Int_float_round_trip :
  Config_Int {| Root := VFloat64 f42 |} "" = Done (42, None) /\
  Config_Int {| Root := VFloat64 f42_5 |} "" =
    Done (0, Some (typeMismatch "int" (VFloat64 f42_5))) /\
  forall (cfg : Config) (path : string) (f : float64),
    Get (Root cfg) path = Done (VFloat64 f, None) ->
    (Sprint_int (float64_to_int f) = Sprint_float64 f ->
       Config_Int cfg path = Done (float64_to_int f, None)) /\
    (Sprint_int (float64_to_int f) <> Sprint_float64 f ->
       Config_Int cfg path = Done (0, Some (typeMismatch "int" (VFloat64 f)))) /\
    ((exists i, Config_Int cfg path = Done (i, None)) <->
       Sprint_int (float64_to_int f) = Sprint_float64 f).
Proof.
  split; [reflexivity|]. split; [reflexivity|].
  intros cfg path f Hget. unfold Config_Int. rewrite Hget. cbn [go_bind].
  destruct (decide (Sprint_int (float64_to_int f) = Sprint_float64 f)) as [Heq|Hne].
  - split; [done|]. split; [intros Hne; by destruct Hne|].
    split; [done|]. intros _. by eexists.
  - split; [intros Heq; by destruct Hne|]. split; [done|].
    split; [intros [i [=]]|intros Heq; by destruct Hne].
Qed.

(** A float that is a whole number and fits an [int] is still refused when
    its text is not that of the integer: 1000000.0 prints as [1e+06]. *)
Lemma Int_refuses_1e6 :
  Sprint_float64 f1e6 = "1e+06" /\
  Config_Int {| Root := VFloat64 f1e6 |} "" =
    Done (0, Some (typeMismatch "int" (VFloat64 f1e6))).
Proof. split; reflexivity. Qed.

Local Ltac provenance :=
  match goal with
  | |- forall z e, _ = Done (z, Some e) -> _ =>
      let z := fresh "z" in let e := fresh "e" in
      let n := fresh "n" in let e' := fresh "e'" in let Hg := fresh "Hg" in
      intros z e;
      match goal with
      | |- context [Get ?r ?p] =>
          destruct (Get r p) as [[n [e'|]]|?] eqn:Hg; cbn [go_bind]
      end;
      [ intros [= <- <-] Hm; exfalso; exact (proj2 (Get_error _ _ _ _ Hg) Hm)
      | intros Hr Hm; exists n; split; [reflexivity|];
        repeat match type of Hr with
               | context [match ?x with _ => _ end] => destruct x
               end;
        first [ discriminate Hr | by injection Hr as <- <- ]
      | intros [=] ]
  end.

(** C6.  When resolution of the path fails, each of the typed accessors
    returns the zero value of its type together with the error of the
    resolver, which is not a type mismatch; and an accessor that returns a
    type-mismatch error has resolved the path to a node [n], the error being
    the type mismatch of [n] against the accessor's type. *)
Theorem accessor_error_provenance
    (ParseFloat : string -> option float64) (cfg : Config) (path : string) :
  (forall v e, Get (Root cfg) path = Done (v, Some e) ->
     ~ is_type_mismatch e /\
     Config_Bool cfg path = Done (false, Some e) /\
     Config_Float64 ParseFloat cfg path = Done (float64_zero, Some e) /\
     Config_Int cfg path = Done (0, Some e) /\
     Config_List cfg path = Done ([], Some e) /\
     Config_Map cfg path = Done (∅, Some e) /\
     Config_String cfg path = Done ("", Some e)) /\
  (forall z e, Config_Bool cfg path = Done (z, Some e) -> is_type_mismatch e ->
     exists n, Get (Root cfg) path = Done (n, None) /\ e = typeMismatch "bool" n) /\
  (forall z e, Config_Float64 ParseFloat cfg path = Done (z, Some e) ->
     is_type_mismatch e ->
     exists n, Get (Root cfg) path = Done (n, None) /\ e = typeMismatch "float64" n) /\
  (forall z e, Config_Int cfg path = Done (z, Some e) -> is_type_mismatch e ->
     exists n, Get (Root cfg) path = Done (n, None) /\ e = typeMismatch "int" n) /\
  (forall z e, Config_List cfg path = Done (z, Some e) -> is_type_mismatch e ->
     exists n, Get (Root cfg) path = Done (n, None) /\
               e = typeMismatch "[]interface{}" n) /\
  (forall z e, Config_Map cfg path = Done (z, Some e) -> is_type_mismatch e ->
     exists n, Get (Root cfg) path = Done (n, None) /\
               e = typeMismatch "map[string]interface{}" n) /\
  (forall z e, Config_String cfg path = Done (z, Some e) -> is_type_mismatch e ->
     exists n, Get (Root cfg) path = Done (n, None) /\ e = typeMismatch "string" n).
Proof.
  split.
  { intros v e Hget. split; [exact (proj2 (Get_error _ _ _ _ Hget))|].
    unfold Config_Bool, Config_Float64, Config_Int, Config_List, Config_Map,
      Config_String.
    rewrite Hget. cbn [go_bind]. by repeat split. }
  unfold Config_Bool, Config_Float64, Config_Int, Config_List, Config_Map,
    Config_String.
  repeat split; provenance.
Qed.

(** ** The environment layer *)

Local Ltac fallback :=
  match goal with
  | |- (forall v, ?first = Done (v, None) -> _) /\ _ =>
      destruct first as [[? [?|]]|?]; cbn [go_bind];
      (split; [intros ? [=]; subst; reflexivity|]);
      (split; [intros ? ? [=]; subst; reflexivity|]);
      intros ? [=]; subst; reflexivity
  end.

(** C7.  For every environment [c] and path [p], each typed accessor of the
    environment layer evaluates the base accessor on [Env + "." + p]: when
    that succeeds its result is returned, when it fails the result is that of
    the base accessor on [p] (a panic of the first call is a panic of the
    whole).  With the root [{"dev": {"host": "h1"}, "host": "h2"}],
    [String("host")] is "h1" for the environment "dev" and "h2" for "prod". *)
Theorem EnvConfig_fallback_order
    (ParseFloat : string -> option float64) (c : EnvConfig) (p : string) :
  ((forall v, Config_Bool (Cfg c) (Env c ++ "." ++ p) = Done (v, None) ->
      EnvConfig_Bool c p = Done (v, None)) /\
   (forall v e, Config_Bool (Cfg c) (Env c ++ "." ++ p) = Done (v, Some e) ->
      EnvConfig_Bool c p = Config_Bool (Cfg c) p) /\
   (forall x, Config_Bool (Cfg c) (Env c ++ "." ++ p) = Panic x ->
      EnvConfig_Bool c p = Panic x)) /\
  ((forall v, Config_Float64 ParseFloat (Cfg c) (Env c ++ "." ++ p) = Done (v, None) ->
      EnvConfig_Float64 ParseFloat c p = Done (v, None)) /\
   (forall v e, Config_Float64 ParseFloat (Cfg c) (Env c ++ "." ++ p) = Done (v, Some e) ->
      EnvConfig_Float64 ParseFloat c p = Config_Float64 ParseFloat (Cfg c) p) /\
   (forall x, Config_Float64 ParseFloat (Cfg c) (Env c ++ "." ++ p) = Panic x ->
      EnvConfig_Float64 ParseFloat c p = Panic x)) /\
  ((forall v, Config_Int (Cfg c) (Env c ++ "." ++ p) = Done (v, None) ->
      EnvConfig_Int c p = Done (v, None)) /\
   (forall v e, Config_Int (Cfg c) (Env c ++ "." ++ p) = Done (v, Some e) ->
      EnvConfig_Int c p = Config_Int (Cfg c) p) /\
   (forall x, Config_Int (Cfg c) (Env c ++ "." ++ p) = Panic x ->
      EnvConfig_Int c p = Panic x)) /\
  ((forall v, Config_List (Cfg c) (Env c ++ "." ++ p) = Done (v, None) ->
      EnvConfig_List c p = Done (v, None)) /\
   (forall v e, Config_List (Cfg c) (Env c ++ "." ++ p) = Done (v, Some e) ->
      EnvConfig_List c p = Config_List (Cfg c) p) /\
   (forall x, Config_List (Cfg c) (Env c ++ "." ++ p) = Panic x ->
      EnvConfig_List c p = Panic x)) /\
  ((forall v, Config_Map (Cfg c) (Env c ++ "." ++ p) = Done (v, None) ->
      EnvConfig_Map c p = Done (v, None)) /\
   (forall v e, Config_Map (Cfg c) (Env c ++ "." ++ p) = Done (v, Some e) ->
      EnvConfig_Map c p = Config_Map (Cfg c) p) /\
   (forall x, Config_Map (Cfg c) (Env c ++ "." ++ p) = Panic x ->
      EnvConfig_Map c p = Panic x)) /\
  ((forall v, Config_String (Cfg c) (Env c ++ "." ++ p) = Done (v, None) ->
      EnvConfig_String c p = Done (v, None)) /\
   (forall v e, Config_String (Cfg c) (Env c ++ "." ++ p) = Done (v, Some e) ->
      EnvConfig_String c p = Config_String (Cfg c) p) /\
   (forall x, Config_String (Cfg c) (Env c ++ "." ++ p) = Panic x ->
      EnvConfig_String c p = Panic x)) /\
  EnvConfig_String dev "host" = Done ("h1", None) /\
  EnvConfig_String prod "host" = Done ("h2", None).
Proof.
  unfold EnvConfig_Bool, EnvConfig_Float64, EnvConfig_Int, EnvConfig_List,
    EnvConfig_Map, EnvConfig_String.
  repeat (split; [fallback|]). split; reflexivity.
Qed.

(** C10.  [EnvConfig.Get] and [EnvConfig.Set] are the base [Config.Get] and
    [Config.Set] on the path as given: their result does not depend on the
    environment label, and the path [Env + "." + p] is not tried.  With the
    root [{"dev": {"host": "h1"}, "host": "h2"}] and the environment "dev",
    [Get("host")] is the node "h2" and [Set("host", "h3")] writes the entry
    "host" of the root, while [String("host")] and [UString("host")], which
    fall back, are "h1". *)
Theorem EnvConfig_Get_Set_no_fallback (c : EnvConfig) (p : string) :
  EnvConfig_Get c p = Config_Get (Cfg c) p /\
  (forall val,
     Cfg (EnvConfig_Set c p val).1 = (Config_Set (Cfg c) p val).1 /\
     Env (EnvConfig_Set c p val).1 = Env c /\
     (EnvConfig_Set c p val).2 = (Config_Set (Cfg c) p val).2) /\
  (forall env, EnvConfig_Get {| Env := env; Cfg := Cfg c |} p = EnvConfig_Get c p) /\
  (forall env val,
     Cfg (EnvConfig_Set {| Env := env; Cfg := Cfg c |} p val).1
       = Cfg (EnvConfig_Set c p val).1 /\
     (EnvConfig_Set {| Env := env; Cfg := Cfg c |} p val).2
       = (EnvConfig_Set c p val).2) /\
  EnvConfig_Get dev "host" = Done (Some {| Root := VString "h2" |}, None) /\
  EnvConfig_Set dev "host" (VString "h3") =
    ({| Env := "dev";
        Cfg := {| Root := VMap {[ "dev" := VMap {[ "host" := VString "h1" ]};
                                  "host" := VString "h3" ]} |} |}, None) /\
  EnvConfig_String dev "host" = Done ("h1", None) /\
  EnvConfig_UString dev "host" [] = Done "h1".
Proof.
  split; [reflexivity|]. split.
  { intros val. unfold EnvConfig_Set. by destruct (Config_Set (Cfg c) p val). }
  split; [reflexivity|]. split.
  { intros env val. unfold EnvConfig_Set. cbn [Cfg].
    by destruct (Config_Set (Cfg c) p val). }
  split; [reflexivity|]. split; [by vm_compute|]. split; reflexivity.
Qed.

(** ** Resolution in two stages *)

Lemma Split_app (a b : string) :
  Split (a ++ "." ++ b) = (Split a ++ Split b)%list.
Proof.
  induction a as [|c r IH]; [reflexivity|].
  change (String c r ++ "." ++ b) with (String c (r ++ "." ++ b)).
  cbn [Split]. rewrite IH. destruct (is_dot c); [reflexivity|].
  destruct (Split r) as [|h t] eqn:Hr; [|reflexivity].
  by destruct (Split_not_nil r).
Qed.

(** [Get] in closed form. *)
Lemma Get_eq (root : value) (path : string) :
  Get root path =
    if decide ("" ∈ tail (Split path))
    then Done (VNil, Some (Errorf "Invalid path %q" [VString path]))
    else get root (if decide (head (Split path) = Some "")
                   then tail (Split path) else Split path) 0.
Proof. unfold Get. rewrite Get_loop_spec. by destruct (decide _). Qed.

(** What a successful walk returns depends on the segments still to
    consume only; [parts] and [pos] serve the error message. *)
Lemma get_from_success_indep (rest : list string) :
  forall cfg parts pos parts' pos' n,
    get_from cfg parts pos rest = Done (n, None) ->
    get_from cfg parts' pos' rest = Done (n, None).
Proof.
  induction rest as [|part rest IH]; intros cfg parts pos parts' pos' n;
    cbn [get_from]; [done|].
  destruct cfg; try done.
  - destruct (ParseInt part) as [idx|]; [|done].
    destruct (idx <? Z.of_nat (length l)); [|done].
    destruct (idx <? 0); [done|].
    destruct (l !! Z.to_nat idx); [apply IH|done].
  - destruct (m !! part); [apply IH|done].
Qed.

(** Walking [ra ++ rb] succeeds exactly when walking [ra] succeeds and
    walking [rb] from the node reached succeeds. *)
Lemma get_from_app (ra rb : list string) :
  forall cfg parts pos parts1 pos1 parts2 pos2 n,
    get_from cfg parts pos (ra ++ rb) = Done (n, None) <->
    exists mid, get_from cfg parts1 pos1 ra = Done (mid, None) /\
                get_from mid parts2 pos2 rb = Done (n, None).
Proof.
  induction ra as [|part ra IH]; intros cfg parts pos parts1 pos1 parts2 pos2 n.
  - cbn [app get_from]. split.
    + intros H. exists cfg. split; [done|]. by eapply get_from_success_indep.
    + intros (mid & [= <-] & H). by eapply get_from_success_indep.
  - cbn [app get_from].
    assert (Hno : forall (e e' : error),
      Done (VNil, Some e) = Done (n, None) <->
      exists mid, Done (VNil, Some e') = Done (mid, None) /\
                  get_from mid parts2 pos2 rb = Done (n, None)).
    { intros e e'. split; [intros [=]|intros (mid & [=] & _)]. }
    assert (Hpanic : forall (x : panic),
      @Panic (value * option error) x = Done (n, None) <->
      exists mid, @Panic (value * option error) x = Done (mid, None) /\
                  get_from mid parts2 pos2 rb = Done (n, None)).
    { intros x. split; [intros [=]|intros (mid & [=] & _)]. }
    destruct cfg; try apply Hno.
    + destruct (ParseInt part) as [idx|]; [|apply Hno].
      destruct (idx <? Z.of_nat (length l)); [|apply Hno].
      destruct (idx <? 0); [apply Hpanic|].
      destruct (l !! Z.to_nat idx); [apply IH|apply Hpanic].
    + destruct (m !! part); [apply IH|apply Hno].
Qed.

Lemma Config_Get_success (cfg n : Config) (path : string) :
  Config_Get cfg path = Done (Some n, None) <->
  Get (Root cfg) path = Done (Root n, None).
Proof.
  unfold Config_Get. destruct (Get (Root cfg) path) as [[v [e|]]|x]; cbn [go_bind].
  - split; intros [=].
  - destruct n as [r]. cbn [Root]. split; intros [=]; by subst.
  - split; intros [=].
Qed.

(** C9.  For every configuration and every path [a.b] whose part [b] has
    no empty segment, [Get(a.b)] yields a configuration exactly when [Get(a)]
    yields one and [Get(b)] on that one yields a configuration, and the two
    ways end on the same node. *)
Theorem Get_composition (cfg : Config) (a b : string) :
  "" ∉ Split b ->
  forall n : Config,
    Config_Get cfg (a ++ "." ++ b) = Done (Some n, None) <->
    exists mid : Config,
      Config_Get cfg a = Done (Some mid, None) /\
      Config_Get mid b = Done (Some n, None).
Proof.
  intros Hb n. rewrite Config_Get_success.
  assert (Hmid : (exists mid : Config,
             Config_Get cfg a = Done (Some mid, None) /\
             Config_Get mid b = Done (Some n, None)) <->
           exists mid : value,
             Get (Root cfg) a = Done (mid, None) /\ Get mid b = Done (Root n, None)).
  { split.
    - intros (mid & H1 & H2). exists (Root mid).
      by rewrite <- !Config_Get_success.
    - intros (mid & H1 & H2). exists {| Root := mid |}.
      by rewrite !Config_Get_success. }
  rewrite Hmid. clear Hmid.
  assert (Hgetb : forall mid, Get mid b = get mid (Split b) 0).
  { intros mid. rewrite Get_eq.
    rewrite decide_False.
    - rewrite decide_False; [done|]. destruct (Split b) as [|h t]; [done|].
      cbn [head]. intros [= ->]. apply Hb, elem_of_cons. by left.
    - intros Hin. apply Hb. destruct (Split b) as [|h t]; [done|].
      apply elem_of_cons. by right. }
  rewrite (Get_eq _ (a ++ "." ++ b)), (Get_eq _ a), Split_app.
  destruct (Split a) as [|h t] eqn:Ha; [by destruct (Split_not_nil a)|].
  cbn [app tail head].
  destruct (decide ("" ∈ t)) as [Ht|Ht].
  - rewrite decide_True by (apply elem_of_app; by left).
    split; [intros [=]|intros (mid & [=] & _)].
  - rewrite decide_False by (intros [?|?]%elem_of_app; done).
    assert (Hwalk : forall pa,
      get (Root cfg) (pa ++ Split b) 0 = Done (Root n, None) <->
      exists mid, get (Root cfg) pa 0 = Done (mid, None) /\
                  Get mid b = Done (Root n, None)).
    { intros pa. unfold get. rewrite !drop_0.
      rewrite (get_from_app pa (Split b) _ _ _ pa 0%nat (Split b) 0%nat).
      split; intros (mid & H1 & H2); exists mid; split; try done.
      - rewrite Hgetb. unfold get. by rewrite drop_0.
      - rewrite Hgetb in H2. unfold get in H2. by rewrite drop_0 in H2. }
    destruct (decide (Some h = Some "")); [apply Hwalk|apply (Hwalk (h :: t))].
Qed.

(** ** Mutation *)

(** Reading back along the segments that were written finds the value. *)
Lemma get_from_set_from (rest : list string) :
  forall part cfg parts pos parts' pos' val cfg',
    set_from cfg parts pos (part :: rest) val = inl cfg' ->
    get_from cfg' parts' pos' (part :: rest) = Done (val, None).
Proof.
  induction rest as [|part2 rest IH];
    intros part cfg parts pos parts' pos' val cfg' Hset.
  - cbn [set_from] in Hset. destruct cfg; try discriminate Hset.
    + destruct (ParseInt part) as [idx|] eqn:Hidx; [|discriminate].
      destruct (0 <=? idx) eqn:H0; cbv iota in Hset; [|discriminate].
      destruct (l !! Z.to_nat idx) as [child|] eqn:Hl; [|discriminate].
      injection Hset as <-. cbn [get_from]. rewrite Hidx, length_insert.
      apply lookup_lt_Some in Hl as Hlt. apply Z.leb_le in H0.
      rewrite (proj2 (Z.ltb_lt _ _)) by lia.
      rewrite (proj2 (Z.ltb_ge _ _)) by lia.
      by rewrite list_lookup_insert_eq.
    + injection Hset as <-. cbn [get_from]. by rewrite lookup_insert_eq.
  - remember (part2 :: rest) as rest2 eqn:Hr2.
    cbn [set_from] in Hset.
    destruct cfg; try discriminate Hset.
    + destruct (ParseInt part) as [idx|] eqn:Hidx; [|discriminate].
      destruct (0 <=? idx) eqn:H0; cbv iota in Hset; [|discriminate].
      destruct (l !! Z.to_nat idx) as [child|] eqn:Hl; [|discriminate].
      destruct (set_from child parts (S pos) rest2 val) as [child'|e] eqn:Hrec;
        [|by destruct rest2].
      assert (cfg' = VList (<[Z.to_nat idx := child']> l)) as ->
        by (destruct rest2; [discriminate Hr2|by injection Hset]).
      cbn [get_from]. rewrite Hidx, length_insert.
      apply lookup_lt_Some in Hl as Hlt. apply Z.leb_le in H0.
      rewrite (proj2 (Z.ltb_lt _ _)) by lia.
      rewrite (proj2 (Z.ltb_ge _ _)) by lia.
      rewrite list_lookup_insert_eq by done. subst rest2. by eapply IH.
    + destruct (set_from (default (VMap ∅) (m !! part)) parts (S pos) rest2 val)
        as [child'|e] eqn:Hrec; [|by destruct rest2].
      assert (cfg' = VMap (<[part := child']> m)) as ->
        by (destruct rest2; [discriminate Hr2|by injection Hset]).
      cbn [get_from]. rewrite lookup_insert_eq. subst rest2. by eapply IH.
Qed.

Lemma Split_single_empty (path : string) : Split path = [""] -> path = "".
Proof.
  destruct path as [|c r]; [done|]. cbn [Split].
  pose proof (Split_not_nil r) as Hne. destruct (is_dot c).
  - intros [= Hr]. by destruct Hne.
  - destruct (Split r); [done|]. intros [=].
Qed.

(** C8.  Starting from the empty map, [Set("x.y.z", 5)] succeeds and writes
    [{"x": {"y": {"z": 5}}}]: in the written tree "x.y.z" resolves to 5 and
    "x.y" to the map with the single entry "z": 5; the same holds through
    [EnvConfig.Set].  In general a key that a map lacks on the way is
    written as if it had held an empty map, and after a successful [Set] on
    a non-empty path the path resolves to the normalized value. *)
Theorem Set_creates_structure :
  Set_ (VMap ∅) "x.y.z" (VInt 5) =
    (VMap {[ "x" := VMap {[ "y" := VMap {[ "z" := VInt 5 ]} ]} ]}, None) /\
  (forall root', Set_ (VMap ∅) "x.y.z" (VInt 5) = (root', None) ->
     Get root' "x.y.z" = Done (VInt 5, None) /\
     Get root' "x.y" = Done (VMap {[ "z" := VInt 5 ]}, None)) /\
  (forall env,
     EnvConfig_Set {| Env := env; Cfg := {| Root := VMap ∅ |} |} "x.y.z" (VInt 5) =
       ({| Env := env;
           Cfg := {| Root := VMap {[ "x" := VMap {[ "y" := VMap {[ "z" := VInt 5 ]} ]} ]} |} |},
        None)) /\
  (forall m part rest parts pos val,
     m !! part = None -> rest <> [] ->
     set_from (VMap m) parts pos (part :: rest) val =
     set_from (VMap (<[part := VMap ∅]> m)) parts pos (part :: rest) val) /\
  (forall root path val item root',
     path <> "" -> normalizeValue val = (item, None) ->
     Set_ root path val = (root', None) ->
     Get root' path = Done (item, None)).
Proof.
  assert (Hset : Set_ (VMap ∅) "x.y.z" (VInt 5) =
    (VMap {[ "x" := VMap {[ "y" := VMap {[ "z" := VInt 5 ]} ]} ]}, None))
    by (by vm_compute).
  split; [exact Hset|]. split.
  { intros root'. rewrite Hset. intros [= <-]. split; by vm_compute. }
  split.
  { intros env. unfold EnvConfig_Set, Config_Set. cbn [Cfg Root].
    by rewrite Hset. }
  split.
  { intros m part rest parts pos val Hm Hrest.
    destruct rest as [|part2 rest]; [done|].
    remember (part2 :: rest) as rest2 eqn:Hr2. cbn [set_from].
    rewrite Hm, lookup_insert_eq. cbn [default from_option id].
    subst rest2. cbv iota.
    destruct (set_from (VMap ∅) parts (S pos) (part2 :: rest) val); [|done].
    by rewrite insert_insert_eq. }
  intros root path val item root' Hpath Hnorm. unfold Set_.
  rewrite Get_eq, Get_loop_spec, Hnorm.
  destruct (decide ("" ∈ tail (Split path))); [intros [=]|].
  set (pa := if decide (head (Split path) = Some "")
             then tail (Split path) else Split path).
  destruct (set_from root pa 0 pa item) as [cfg'|e] eqn:Hs; [|intros [=]].
  intros [= <-]. unfold get. rewrite drop_0.
  destruct pa as [|part rest] eqn:Hpa.
  - exfalso. apply Hpath, Split_single_empty. subst pa.
    destruct (Split path) as [|h t] eqn:Hsp; [by destruct (Split_not_nil path)|].
    cbn [head tail] in *. destruct (decide (Some h = Some "")) as [[= ->]|];
      [by subst|done].
  - by eapply get_from_set_from.
Qed.

(** ** The normalizer *)

Lemma normalizeValue_list (l : list value) :
  normalizeValue (VList l) =
    match normalize_items l with
    | inl node => (VList node, None)
    | inr e => (VNil, Some e)
    end.
Proof. reflexivity. Qed.

Lemma normalizeValue_map (m : gmap string value) :
  normalizeValue (VMap m) =
    match map_fold normalize_entry (inl ∅) m with
    | inl node => (VMap node, None)
    | inr e => (VNil, Some e)
    end.
Proof. reflexivity. Qed.

Lemma normalizeValue_raw_map (m : list (value * value)) :
  normalizeValue (VRawMap m) = normalize_raw_entries m ∅.
Proof. reflexivity. Qed.

Lemma value_size_item (l : list value) (x : value) :
  x ∈ l -> (value_size x < value_size (VList l))%nat.
Proof.
  cbn [value_size]. induction l as [|y l IH]; [by intros ?%elem_of_nil|].
  cbn [foldr]. intros [->|Hin]%elem_of_cons; [lia|]. specialize (IH Hin). lia.
Qed.

Lemma value_size_entry (m : gmap string value) (k : string) (x : value) :
  m !! k = Some x -> (value_size x < value_size (VMap m))%nat.
Proof.
  cbn [value_size]. revert k x.
  apply (map_fold_weak_ind
    (fun r m => forall k x, m !! k = Some x -> (value_size x < S r)%nat)).
  - intros k x. by rewrite lookup_empty.
  - intros i y m' r Hi IH k x. rewrite lookup_insert.
    destruct (decide (i = k)) as [->|Hne].
    + intros [= ->]. lia.
    + intros Hk. specialize (IH _ _ Hk). lia.
Qed.

Lemma value_size_raw_entry (m : list (value * value)) (k x : value) :
  (k, x) ∈ m ->
  (value_size k < value_size (VRawMap m))%nat /\
  (value_size x < value_size (VRawMap m))%nat.
Proof.
  cbn [value_size]. induction m as [|[k' x'] m IH]; [by intros ?%elem_of_nil|].
  cbn [foldr]. intros [[= -> ->]|Hin]%elem_of_cons; [lia|].
  specialize (IH Hin). lia.
Qed.

(** Induction on values, with the hypothesis for every item of a list and
    every key and value of a map. *)
Lemma value_nested_ind (P : value -> Prop) :
  P VNil -> (forall b, P (VBool b)) -> (forall f, P (VFloat64 f)) ->
  (forall i, P (VInt i)) -> (forall s, P (VString s)) ->
  (forall l, Forall P l -> P (VList l)) ->
  (forall m, map_Forall (fun _ => P) m -> P (VMap m)) ->
  (forall m, Forall (fun kv => P kv.1 /\ P kv.2) m -> P (VRawMap m)) ->
  (forall ty, P (VOther ty)) ->
  forall v, P v.
Proof.
  intros Hnil Hbool Hfloat Hint Hstr Hlist Hmap Hraw Hother v.
  remember (value_size v) as n eqn:Hn. revert v Hn.
  induction n as [n IH] using lt_wf_ind. intros v ->.
  destruct v; auto.
  - apply Hlist, Forall_forall. intros x Hx.
    eapply IH; [|reflexivity]. by apply value_size_item.
  - apply Hmap. intros k x Hk.
    eapply IH; [|reflexivity]. by eapply value_size_entry.
  - apply Hraw, Forall_forall. intros [k x] Hkx.
    destruct (value_size_raw_entry _ _ _ Hkx).
    split; (eapply IH; [|reflexivity]); done.
Qed.

(** A tree in canonical shape is returned as it is. *)
Lemma normalizeValue_canonical_id (v : value) :
  canonical v -> normalizeValue v = (v, None).
Proof.
  induction v as [|b|f|i|s|l IH|m IH|m IH|ty] using value_nested_ind;
    intros Hc; try reflexivity; try (by inversion Hc).
  - rewrite normalizeValue_list.
    assert (Hl : Forall canonical l) by (by inversion Hc).
    enough (normalize_items l = inl l) as -> by done.
    clear Hc. induction l as [|x l IHl]; [reflexivity|].
    apply Forall_cons in IH as [Hx IH]. apply Forall_cons in Hl as [Hcx Hl].
    cbn [normalize_items]. by rewrite (Hx Hcx), (IHl IH Hl).
  - rewrite normalizeValue_map.
    assert (Hm : map_Forall (fun _ => canonical) m) by (by inversion Hc).
    enough (map_fold normalize_entry (inl ∅) m = inl m) as -> by done.
    clear Hc. revert IH Hm.
    apply (map_fold_weak_ind (fun r m =>
      map_Forall (fun _ x => canonical x -> normalizeValue x = (x, None)) m ->
      map_Forall (fun _ => canonical) m -> r = inl m)); [done|].
    intros k x m' r Hk Hrec IH Hm.
    apply map_Forall_insert in IH as [Hx IH]; [|done].
    apply map_Forall_insert in Hm as [Hcx Hm]; [|done].
    rewrite (Hrec IH Hm). cbn [normalize_entry]. by rewrite (Hx Hcx).
Qed.

Lemma normalize_items_canonical (l : list value) :
  Forall (fun x => forall n, normalizeValue x = (n, None) -> canonical n) l ->
  forall node, normalize_items l = inl node -> Forall canonical node.
Proof.
  induction l as [|x l IHl]; intros IH node; cbn [normalize_items].
  - intros [= <-]. constructor.
  - apply Forall_cons in IH as [Hx IH].
    destruct (normalizeValue x) as [item [e|]] eqn:Hn; [done|].
    destruct (normalize_items l) as [node'|e] eqn:Hl; [|done].
    intros [= <-]. constructor; [by apply Hx|by apply IHl].
Qed.

Lemma normalize_entries_canonical (m : gmap string value) :
  map_Forall (fun _ x => forall n, normalizeValue x = (n, None) -> canonical n) m ->
  forall node, map_fold normalize_entry (inl ∅) m = inl node ->
               map_Forall (fun _ => canonical) node.
Proof.
  apply (map_fold_weak_ind (fun r m =>
    map_Forall (fun _ x => forall n, normalizeValue x = (n, None) -> canonical n) m ->
    forall node, r = inl node -> map_Forall (fun _ => canonical) node)).
  - intros _ node [= <-]. apply map_Forall_empty.
  - intros k x m' r Hk Hrec IH node.
    apply map_Forall_insert in IH as [Hx IH]; [|done].
    destruct r as [node'|e]; cbn [normalize_entry]; [|done].
    destruct (normalizeValue x) as [item [e|]] eqn:Hn; [done|].
    intros [= <-]. apply map_Forall_insert_2; [by apply Hx|by apply Hrec].
Qed.

Lemma normalize_raw_entries_canonical (kvs : list (value * value)) :
  Forall (fun kv =>
            (forall n, normalizeValue kv.1 = (n, None) -> canonical n) /\
            (forall n, normalizeValue kv.2 = (n, None) -> canonical n)) kvs ->
  forall node n,
    map_Forall (fun _ => canonical) node ->
    normalize_raw_entries kvs node = (n, None) -> canonical n.
Proof.
  induction kvs as [|[k x] kvs IHk]; intros IH node n Hnode;
    cbn [normalize_raw_entries].
  - intros [= <-]. by constructor.
  - apply Forall_cons in IH as [[_ Hx] IH]. cbn [snd] in Hx.
    destruct k; try done.
    destruct (normalizeValue x) as [item [e|]] eqn:Hn; [done|].
    apply IHk; [done|]. apply map_Forall_insert_2; [by apply Hx|done].
Qed.

(** What the normalizer accepts comes out in canonical shape. *)
Lemma normalizeValue_canonical (raw : value) :
  forall n, normalizeValue raw = (n, None) -> canonical n.
Proof.
  induction raw as [|b|f|i|s|l IH|m IH|m IH|ty] using value_nested_ind;
    intros n.
  - intros [=].
  - intros [= <-]. constructor.
  - intros [= <-]. constructor.
  - intros [= <-]. constructor.
  - intros [= <-]. constructor.
  - rewrite normalizeValue_list.
    destruct (normalize_items l) as [node|e] eqn:Hl; [|done].
    intros [= <-]. constructor. by eapply normalize_items_canonical.
  - rewrite normalizeValue_map.
    destruct (map_fold normalize_entry (inl ∅) m) as [node|e] eqn:Hm; [|done].
    intros [= <-]. constructor. by eapply normalize_entries_canonical.
  - rewrite normalizeValue_raw_map.
    apply normalize_raw_entries_canonical; [done|apply map_Forall_empty].
  - intros [=].
Qed.

(** C5, as the code has it.  The normalizer returns a bool, a float64, an
    int or a string unchanged: a float64 stays a float64 and a native int
    stays a native int.  Every tree it accepts comes out with nothing but
    bool, float64, int, string, list and string-keyed map nodes, and a tree
    of that shape is returned as it is, native ints included. *)
Theorem normalizeValue_keeps_numbers :
  (forall b, normalizeValue (VBool b) = (VBool b, None)) /\
  (forall f, normalizeValue (VFloat64 f) = (VFloat64 f, None)) /\
  (forall i, normalizeValue (VInt i) = (VInt i, None)) /\
  (forall s, normalizeValue (VString s) = (VString s, None)) /\
  (forall raw n, normalizeValue raw = (n, None) -> canonical n) /\
  (forall v, canonical v -> normalizeValue v = (v, None)).
Proof.
  repeat split; try reflexivity.
  - apply normalizeValue_canonical.
  - apply normalizeValue_canonical_id.
Qed.

(** C5, as the claim has it, fails: the raw int 42 is accepted and comes
    out as the native int 42, also inside a map read from YAML. *)
Lemma normalizeValue_int_stays_int :
  normalizeValue (VInt 42) = (VInt 42, None) /\
  holds_int (VInt 42) /\
  normalizeValue (VRawMap [(VString "port", VInt 8080)]) =
    (VMap {[ "port" := VInt 8080 ]}, None) /\
  holds_int (VMap {[ "port" := VInt 8080 ]}) /\
  ~ (forall raw n, normalizeValue raw = (n, None) -> ~ holds_int n).
Proof.
  split; [reflexivity|]. split; [constructor|]. split; [by vm_compute|].
  split; [by eapply (holds_int_entry _ "port"); [|constructor]|].
  intros H. apply (H (VInt 42) (VInt 42)); [reflexivity|constructor].
Qed.

(** * The theorems at concrete inputs *)

Lemma Get_path_splitting_witness :
  Get hosts "dev..host" =
    Done (VNil, Some (Errorf "Invalid path %q" [VString "dev..host"])) /\
  Get hosts ".dev.host" = get hosts ["dev"; "host"] 0 /\
  Get hosts "dev.host" = get hosts ["dev"; "host"] 0 /\
  Get hosts ".dev.host" = Get hosts "dev.host".
Proof.
  split; [|split; [|split]].
  - apply (proj1 (Get_path_splitting hosts "dev..host")).
    apply (bool_decide_unpack _). by vm_compute.
  - apply (proj1 (proj2 (Get_path_splitting hosts ".dev.host"))).
    + apply (bool_decide_unpack _). by vm_compute.
    + reflexivity.
  - apply (proj1 (proj2 (proj2 (Get_path_splitting hosts "dev.host")))).
    + apply (bool_decide_unpack _). by vm_compute.
    + discriminate.
  - apply (proj1 (proj2 (proj2 (proj2 (Get_path_splitting hosts "dev.host"))))).
    apply (bool_decide_unpack _). by vm_compute.
Defined.

Lemma Int_float_round_trip_witness :
  Config_Int {| Root := VMap {[ "n" := VFloat64 f42 ]} |} "n" = Done (42, None) /\
  Config_Int {| Root := VMap {[ "n" := VFloat64 f42_5 ]} |} "n" =
    Done (0, Some (typeMismatch "int" (VFloat64 f42_5))).
Proof.
  split.
  - refine (proj1 (proj2 (proj2 Int_float_round_trip)
                     {| Root := VMap {[ "n" := VFloat64 f42 ]} |} "n" f42 _) _);
      by vm_compute.
  - refine (proj1 (proj2 (proj2 (proj2 Int_float_round_trip)
                     {| Root := VMap {[ "n" := VFloat64 f42_5 ]} |} "n" f42_5 _)) _).
    + by vm_compute.
    + by vm_compute.
Defined.

Lemma normalizeValue_keeps_numbers_witness :
  canonical (VMap {[ "port" := VInt 8080 ]}) /\
  normalizeValue (VList [VInt 1; VFloat64 f42]) = (VList [VInt 1; VFloat64 f42], None).
Proof.
  split.
  - apply (proj1 (proj2 (proj2 (proj2 (proj2 normalizeValue_keeps_numbers))))
             (VRawMap [(VString "port", VInt 8080)])).
    by vm_compute.
  - apply (proj2 (proj2 (proj2 (proj2 (proj2 normalizeValue_keeps_numbers))))).
    repeat constructor.
Defined.

Lemma accessor_error_provenance_witness :
  Config_Int {| Root := hosts |} "port" =
    Done (0, Some (Errorf "Invalid path %q (found: %q; not found: %q)"
                     [VString "port"; VString ""; VString "port"])) /\
  exists n, Get hosts "host" = Done (n, None) /\
            typeMismatch "int" (VString "h2") = typeMismatch "int" n.
Proof.
  split.
  - apply (proj1 (accessor_error_provenance (fun _ => None)
                    {| Root := hosts |} "port") VNil).
    reflexivity.
  - apply (proj1 (proj2 (proj2 (proj2 (accessor_error_provenance (fun _ => None)
                    {| Root := hosts |} "host")))) 0); reflexivity.
Defined.

Lemma EnvConfig_fallback_order_witness :
  EnvConfig_String dev "host" = Done ("h1", None) /\
  EnvConfig_String prod "host" = Config_String (Cfg prod) "host".
Proof.
  pose proof (EnvConfig_fallback_order (fun _ => None) dev "host") as Hdev.
  pose proof (EnvConfig_fallback_order (fun _ => None) prod "host") as Hprod.
  destruct Hdev as (_ & _ & _ & _ & _ & (Hdev & _) & _).
  destruct Hprod as (_ & _ & _ & _ & _ & (_ & Hprod & _) & _).
  split.
  - apply Hdev. reflexivity.
  - apply (Hprod "" (not_found ["prod"; "host"] 0)). reflexivity.
Defined.

Lemma Set_creates_structure_witness :
  Get (VMap {[ "x" := VMap {[ "y" := VMap {[ "z" := VInt 5 ]} ]} ]}) "x.y"
    = Done (VMap {[ "z" := VInt 5 ]}, None) /\
  set_from (VMap ∅) ["x"; "y"] 0 ["x"; "y"] (VInt 5) =
    set_from (VMap {[ "x" := VMap ∅ ]}) ["x"; "y"] 0 ["x"; "y"] (VInt 5) /\
  Get (VMap {[ "port" := VInt 8080 ]}) "port" = Done (VInt 8080, None).
Proof.
  destruct Set_creates_structure as (_ & Hget & _ & Hnew & Hback).
  split; [|split].
  - apply Hget. by vm_compute.
  - apply (Hnew ∅ "x" ["y"]); [reflexivity|discriminate].
  - apply (Hback (VMap ∅) "port" (VInt 8080)); [discriminate|reflexivity|].
    by vm_compute.
Defined.

Lemma Get_composition_witness :
  exists mid : Config,
    Config_Get {| Root := tree (VInt 10) (VInt 20) (VInt 30) |} "a"
      = Done (Some mid, None) /\
    Config_Get mid "b.1" = Done (Some {| Root := VInt 20 |}, None).
Proof.
  apply (Get_composition {| Root := tree (VInt 10) (VInt 20) (VInt 30) |}
           "a" "b.1").
  - apply (bool_decide_unpack _). by vm_compute.
  - reflexivity.
Defined.

(** * Further properties of the code *)

(** ** Splitting, joining and decimal segments *)

Lemma Join_cons (p : string) (rest : list string) :
  rest <> [] -> Join (p :: rest) = p ++ "." ++ Join rest.
Proof. by destruct rest. Qed.

Lemma append_cons (c : ascii) (r x : string) :
  String c r ++ x = String c (r ++ x).
Proof. reflexivity. Qed.

(** [strings.Join(strings.Split(s, "."), ".")] is [s]. *)
Lemma Join_Split (s : string) : Join (Split s) = s.
Proof.
  induction s as [|c r IH]; [reflexivity|]. cbn [Split].
  pose proof (Split_not_nil r) as Hne. destruct (is_dot c) eqn:Hc.
  - rewrite Join_cons by done. rewrite IH.
    apply Ascii.eqb_eq in Hc as ->. reflexivity.
  - destruct (Split r) as [|h t]; [done|]. rewrite <- IH.
    destruct t as [|h' t]; [reflexivity|].
    rewrite !Join_cons by done. by rewrite append_cons.
Qed.

(** No segment holds a dot. *)
Lemma Split_no_dot (s part : string) : part ∈ Split s -> has_dot part = false.
Proof.
  revert part. induction s as [|c r IH]; intros part; cbn [Split].
  - by intros ->%list_elem_of_singleton.
  - destruct (is_dot c) eqn:Hc.
    + intros [->|Hin]%elem_of_cons; [reflexivity|by apply IH].
    + pose proof (Split_not_nil r) as Hne.
      destruct (Split r) as [|h t]; [done|].
      intros [->|Hin]%elem_of_cons.
      * cbn [has_dot]. rewrite Hc. apply IH, elem_of_cons. by left.
      * apply IH, elem_of_cons. by right.
Qed.

(** A string without a dot is its own single segment. *)
Lemma Split_single (s : string) : has_dot s = false -> Split s = [s].
Proof.
  induction s as [|c r IH]; [reflexivity|]. cbn [has_dot Split].
  intros [Hc Hr]%orb_false_iff. rewrite Hc, (IH Hr). reflexivity.
Qed.

Lemma parse_digits_uint (d : Decimal.uint) (a : Decimal.uint) :
  parse_digits (Z.of_N (DecimalPos.Unsigned.of_lu a)) (NilEmpty.string_of_uint d)
  = Some (Z.of_N (DecimalPos.Unsigned.of_lu (Decimal.revapp d a))).
Proof.
  revert a. induction d; intros a; [reflexivity|..];
    cbn [NilEmpty.string_of_uint parse_digits Decimal.revapp];
    match goal with
    | |- context [digit_of ?c] =>
        let v := eval vm_compute in (digit_of c) in
        change (digit_of c) with v; cbv iota
    end;
    rewrite <- IHd; f_equal;
    cbn [DecimalPos.Unsigned.of_lu]; lia.
Qed.

Lemma parse_digits_pos (p : positive) :
  parse_digits 0 (NilEmpty.string_of_uint (Pos.to_uint p)) = Some (Z.pos p).
Proof.
  change 0 with (Z.of_N (DecimalPos.Unsigned.of_lu Decimal.Nil)).
  rewrite (parse_digits_uint (Pos.to_uint p) Decimal.Nil).
  change (Decimal.revapp (Pos.to_uint p) Decimal.Nil)
    with (Decimal.rev (Pos.to_uint p)).
  by rewrite <- DecimalPos.Unsigned.of_uint_alt, DecimalPos.Unsigned.of_to.
Qed.

Lemma uint_string_no_dot (d : Decimal.uint) :
  has_dot (NilEmpty.string_of_uint d) = false.
Proof. induction d; [reflexivity|..]; cbn [NilEmpty.string_of_uint has_dot]; done. Qed.

(** The decimal text of a positive number: digits only, the first of them
    neither a sign nor missing. *)
Lemma uint_string_head (p : positive) :
  exists c r, NilEmpty.string_of_uint (Pos.to_uint p) = String c r /\
              Ascii.eqb c "-" = false /\ Ascii.eqb c "+" = false.
Proof.
  pose proof (DecimalPos.Unsigned.to_uint_nonnil p) as Hne.
  destruct (Pos.to_uint p); [done|..]; cbn [NilEmpty.string_of_uint];
    eexists _, _; by repeat split.
Qed.

Lemma decimal_pos (p : positive) :
  decimal (Z.pos p) = NilEmpty.string_of_uint (Pos.to_uint p).
Proof.
  unfold decimal. cbn [Z.to_int NilZero.string_of_int NilZero.string_of_uint].
  pose proof (DecimalPos.Unsigned.to_uint_nonnil p) as Hne.
  by destruct (Pos.to_uint p).
Qed.

Lemma decimal_neg (p : positive) :
  decimal (Z.neg p) = String "-" (NilEmpty.string_of_uint (Pos.to_uint p)).
Proof.
  unfold decimal. cbn [Z.to_int NilZero.string_of_int NilZero.string_of_uint].
  pose proof (DecimalPos.Unsigned.to_uint_nonnil p) as Hne.
  by destruct (Pos.to_uint p).
Qed.

(** [strconv.ParseInt] reads back the decimal text of every [int]. *)
Lemma ParseInt_decimal (i : Z) :
  minInt <= i <= maxInt -> ParseInt (decimal i) = Some i.
Proof.
  unfold minInt, maxInt, intSize. intros Hi. destruct i as [|p|p].
  - reflexivity.
  - rewrite decimal_pos. destruct (uint_string_head p) as (c & r & Hs & Hm & Hp).
    unfold ParseInt. rewrite Hs, Hm, Hp. cbn [orb negb andb].
    rewrite <- Hs, parse_digits_pos. unfold intSize.
    rewrite (proj2 (Z.leb_gt _ _)) by lia. reflexivity.
  - rewrite decimal_neg. unfold ParseInt.
    change (Ascii.eqb "-" "-") with true. change (Ascii.eqb "-" "+") with false.
    cbn [orb negb andb].
    destruct (uint_string_head p) as (c & r & Hs & _ & _).
    rewrite Hs, <- Hs, parse_digits_pos. unfold intSize.
    rewrite (proj2 (Z.ltb_ge _ _)) by lia. reflexivity.
Qed.

Lemma decimal_no_dot (i : Z) : has_dot (decimal i) = false.
Proof.
  destruct i as [|p|p]; [reflexivity|..].
  - rewrite decimal_pos. apply uint_string_no_dot.
  - rewrite decimal_neg. cbn [has_dot]. apply uint_string_no_dot.
Qed.

Lemma decimal_not_empty (i : Z) : decimal i <> "".
Proof.
  destruct i as [|p|p]; [done|..].
  - rewrite decimal_pos. by destruct (uint_string_head p) as (c & r & -> & _).
  - by rewrite decimal_neg.
Qed.

(** The segments [get] walks for a path that [Get] accepts. *)
Lemma Get_segments (path : string) :
  "" ∉ tail (Split path) ->
  exists parts,
    (forall root, Get root path = get root parts 0) /\
    ("" ∉ parts) /\ (forall part, part ∈ parts -> part ∈ Split path) /\
    (Split path = parts \/ Split path = "" :: parts) /\
    (parts = [] -> path = "").
Proof.
  intros Ht.
  destruct (Split path) as [|h t] eqn:Hs; [by destruct (Split_not_nil path)|].
  cbn [tail] in Ht. destruct (decide (h = "")) as [->|Hh].
  - exists t. split; [|split; [done|split; [|split; [by right|]]]].
    + intros root. rewrite Get_eq, Hs. cbn [head tail].
      by rewrite decide_False, decide_True.
    + intros part Hin. apply elem_of_cons. by right.
    + intros ->. by apply Split_single_empty.
  - exists (h :: t). split; [|split; [|split; [done|split; [by left|done]]]].
    + intros root. rewrite Get_eq, Hs. cbn [head tail].
      rewrite decide_False by done. rewrite decide_False; [done|].
      intros [= ->]. done.
    + intros [Hin|Hin]%elem_of_cons; [|done]. by apply Hh.
Qed.

Lemma get_nil (cfg : value) : get cfg [] 0 = Done (cfg, None).
Proof. reflexivity. Qed.

Lemma get_single (cfg : value) (part : string) :
  get cfg [part] 0 = get_from cfg [part] 0 [part].
Proof. reflexivity. Qed.

(** ** Looking up one key, one index *)

(** X1.  On a map, a key that is not empty and holds no dot resolves to the
    entry of that key; when the map has no such key the error is the
    not-found error with nothing found and the key not found. *)
Theorem Get_map_key (m : gmap string value) (key : string) :
  key <> "" -> has_dot key = false ->
  Get (VMap m) key =
    match m !! key with
    | Some v => Done (v, None)
    | None =>
        Done (VNil, Some (Errorf "Invalid path %q (found: %q; not found: %q)"
                            [VString key; VString ""; VString key]))
    end.
Proof.
  intros Hne Hdot. rewrite Get_eq, (Split_single key Hdot). cbn [tail head].
  rewrite decide_False by apply not_elem_of_nil.
  rewrite decide_False by (intros [= ->]; done).
  rewrite get_single. cbn [get_from]. by destruct (m !! key).
Qed.

(** X2.  On a list, the decimal text of an index [i] that an [int] can hold
    resolves to the [i]-th item, in the order of the list; from the length of
    the list on the result is the not-found error, not a panic. *)
Theorem Get_list_decimal_index (l : list value) (i : Z) :
  0 <= i <= maxInt ->
  Get (VList l) (Sprint_int i) =
    match l !! Z.to_nat i with
    | Some v => Done (v, None)
    | None =>
        Done (VNil, Some (Errorf "Invalid path %q (found: %q; not found: %q)"
                            [VString (Sprint_int i); VString "";
                             VString (Sprint_int i)]))
    end.
Proof.
  intros Hi. unfold Sprint_int.
  rewrite Get_eq, (Split_single _ (decimal_no_dot i)). cbn [tail head].
  rewrite decide_False by apply not_elem_of_nil.
  rewrite decide_False by (intros [= H]; by apply (decimal_not_empty i)).
  rewrite get_single. cbn [get_from].
  rewrite ParseInt_decimal by (unfold minInt, maxInt, intSize in *; lia).
  destruct (l !! Z.to_nat i) as [v|] eqn:Hl.
  - apply lookup_lt_Some in Hl as Hlt.
    rewrite (proj2 (Z.ltb_lt _ _)) by lia.
    by rewrite (proj2 (Z.ltb_ge _ _)) by lia.
  - apply lookup_ge_None in Hl as Hge.
    by rewrite (proj2 (Z.ltb_ge _ _)) by lia.
Qed.

(** X3.  An entry of a map whose key is empty or holds a dot is out of
    reach: for every path but the empty one, [Get] on the map gives what it
    gives on the map without that entry. *)
Theorem Get_ignores_dotted_key (m : gmap string value) (key path : string) :
  key = "" \/ has_dot key = true -> path <> "" ->
  Get (VMap m) path = Get (VMap (delete key m)) path.
Proof.
  intros Hkey Hpath. destruct (decide ("" ∈ tail (Split path))) as [Ht|Ht].
  - by rewrite !Get_eq, !decide_True.
  - destruct (Get_segments path Ht) as (parts & Hget & Hne & Hin & _ & Hnil).
    rewrite !Hget.
    destruct parts as [|part rest]; [by destruct Hpath; apply Hnil|].
    unfold get. rewrite !drop_0. cbn [get_from].
    assert (part <> key) as Hpk.
    { intros ->. destruct Hkey as [->|Hd].
      - apply Hne, elem_of_cons. by left.
      - rewrite (Split_no_dot path key) in Hd; [done|].
        apply Hin, elem_of_cons. by left. }
    by rewrite lookup_delete_ne.
Qed.

(** ** Panics and errors of the resolver *)

Lemma get_from_panic (rest : list string) :
  forall cfg parts pos x,
    get_from cfg parts pos rest = Panic x ->
    exists part idx len,
      part ∈ rest /\ ParseInt part = Some idx /\ idx < 0 /\
      x = IndexOutOfRange idx len.
Proof.
  induction rest as [|part rest IH]; intros cfg parts pos x; cbn [get_from];
    [done|].
  assert (Hrec : forall v, get_from v parts (S pos) rest = Panic x ->
    exists part' idx len, part' ∈ part :: rest /\ ParseInt part' = Some idx /\
                          idx < 0 /\ x = IndexOutOfRange idx len).
  { intros v Hv. destruct (IH _ _ _ _ Hv) as (p' & idx & len & Hin & ?).
    exists p', idx, len. split; [|done]. apply elem_of_cons. by right. }
  destruct cfg; try done.
  - destruct (ParseInt part) as [idx|] eqn:Hp; [|done].
    destruct (Z.ltb_spec idx (Z.of_nat (length l))) as [Hlt|]; [|done].
    destruct (Z.ltb_spec idx 0) as [Hneg|Hpos].
    + intros [= <-]. exists part, idx, (length l).
      split; [apply elem_of_cons; by left|done].
    + destruct (l !! Z.to_nat idx) as [v|] eqn:Hl; [apply Hrec|].
      apply lookup_ge_None in Hl. lia.
  - destruct (m !! part); [apply Hrec|done].
Qed.

(** X4.  [Get] panics only when a segment of the path parses as a negative
    integer, and then with the index-out-of-range panic of that integer; a
    path none of whose segments parses as a negative integer always comes
    back with a node or an error. *)
Theorem Get_panics_only_on_negative_index (root : value) (path : string) :
  (forall x, Get root path = Panic x ->
     exists part idx len,
       part ∈ Split path /\ ParseInt part = Some idx /\ idx < 0 /\
       x = IndexOutOfRange idx len) /\
  ((forall part idx, part ∈ Split path -> ParseInt part = Some idx -> 0 <= idx) ->
     exists n err, Get root path = Done (n, err)).
Proof.
  assert (Hpanic : forall x, Get root path = Panic x ->
     exists part idx len,
       part ∈ Split path /\ ParseInt part = Some idx /\ idx < 0 /\
       x = IndexOutOfRange idx len).
  { intros x. destruct (decide ("" ∈ tail (Split path))) as [Ht|Ht].
    - by rewrite Get_eq, decide_True.
    - destruct (Get_segments path Ht) as (parts & Hget & _ & Hin & _).
      rewrite Hget. unfold get. rewrite drop_0. intros Hx.
      destruct (get_from_panic _ _ _ _ _ Hx) as (part & idx & len & Hp & ?).
      exists part, idx, len. split; [by apply Hin|done]. }
  split; [exact Hpanic|]. intros Hall.
  destruct (Get root path) as [[n err]|x] eqn:Hg; [by eexists _, _|].
  destruct (Hpanic x eq_refl) as (part & idx & len & Hin & Hp & Hneg & _).
  specialize (Hall _ _ Hin Hp). lia.
Qed.

Lemma Split_Join (xs : list string) :
  xs <> [] -> (forall x, x ∈ xs -> has_dot x = false) -> Split (Join xs) = xs.
Proof.
  induction xs as [|x xs IH]; [done|]. intros _ Hdot.
  destruct xs as [|y xs].
  - apply Split_single, Hdot, elem_of_cons. by left.
  - rewrite Join_cons by done. rewrite Split_app, IH; [|done|].
    + rewrite Split_single; [done|]. apply Hdot, elem_of_cons. by left.
    + intros z Hz. apply Hdot, elem_of_cons. by right.
Qed.

(** Where a walk fails: the segments consumed resolve to a node, and that
    node has no child for the segment that comes next. *)
Lemma get_from_diagnosis (rest : list string) :
  forall root seen cfg v e,
    get_from root seen 0 seen = Done (cfg, None) ->
    get_from cfg (seen ++ rest) (length seen) rest = Done (v, Some e) ->
    exists seen' part rest' n,
      (seen ++ rest = seen' ++ part :: rest')%list /\
      e = not_found (seen ++ rest) (length seen') /\
      get_from root seen' 0 seen' = Done (n, None) /\
      no_child n part.
Proof.
  induction rest as [|part rest IH]; intros root seen cfg v e Hdone;
    cbn [get_from]; [done|].
  assert (Hhere : no_child cfg part ->
    Done (VNil, Some (not_found (seen ++ part :: rest) (length seen)))
      = Done (v, Some e) ->
    exists seen' part' rest' n,
      (seen ++ part :: rest = seen' ++ part' :: rest')%list /\
      e = not_found (seen ++ part :: rest) (length seen') /\
      get_from root seen' 0 seen' = Done (n, None) /\ no_child n part').
  { intros Hno [= <- <-]. by exists seen, part, rest, cfg. }
  assert (Hrec : forall child,
    get_from cfg seen 0 [part] = Done (child, None) ->
    get_from child (seen ++ part :: rest) (S (length seen)) rest
      = Done (v, Some e) ->
    exists seen' part' rest' n,
      (seen ++ part :: rest = seen' ++ part' :: rest')%list /\
      e = not_found (seen ++ part :: rest) (length seen') /\
      get_from root seen' 0 seen' = Done (n, None) /\ no_child n part').
  { intros child Hstep Hrest.
    replace (seen ++ part :: rest)%list with ((seen ++ [part]) ++ rest)%list
      in * by (by rewrite <- app_assoc).
    replace (S (length seen)) with (length (seen ++ [part]))
      in Hrest by (rewrite length_app; cbn; lia).
    apply (IH root (seen ++ [part])%list child v e); [|done].
    apply (get_from_app seen [part] root _ _ seen 0%nat seen 0%nat child).
    by exists cfg. }
  destruct cfg; try (by apply Hhere).
  - destruct (ParseInt part) as [idx|] eqn:Hp;
      [|apply Hhere; cbn [no_child]; intros idx; by rewrite Hp].
    destruct (Z.ltb_spec idx (Z.of_nat (length l))) as [Hlt|Hge];
      [|apply Hhere; cbn [no_child]; intros idx' Hp'; rewrite Hp in Hp';
        injection Hp' as <-; lia].
    destruct (Z.ltb_spec idx 0) as [Hneg|Hpos]; [done|].
    destruct (l !! Z.to_nat idx) as [child|] eqn:Hl; [|done].
    apply Hrec. cbn [get_from]. rewrite Hp.
    rewrite (proj2 (Z.ltb_lt _ _)) by lia.
    rewrite (proj2 (Z.ltb_ge _ _)) by lia. by rewrite Hl.
  - destruct (m !! part) as [child|] eqn:Hm; [|apply Hhere; exact Hm].
    apply Hrec. cbn [get_from]. by rewrite Hm.
Qed.

Lemma Get_Join (root : value) (seen : list string) :
  "" ∉ seen -> (forall x, x ∈ seen -> has_dot x = false) ->
  Get root (Join seen) = get root seen 0.
Proof.
  intros Hne Hdot. destruct seen as [|x xs]; [reflexivity|].
  rewrite Get_eq, Split_Join by done. cbn [tail head].
  rewrite decide_False by (intros Hin; apply Hne, elem_of_cons; by right).
  rewrite decide_False; [done|].
  intros [= ->]. apply Hne, elem_of_cons. by left.
Qed.

(** X5.  An error of [Get] is the invalid-path error of a path with an
    empty segment after the first, or the not-found error of a position in
    the path: the text it reports as found is the segments before that
    position joined by dots and is a path that resolves, to a node that has
    no child for the segment at the position; the text not found is the
    segments from the position on, and the path reported is the requested
    path without its leading dot. *)
Theorem Get_error_diagnosis (root : value) (path : string) (v : value) (e : error) :
  Get root path = Done (v, Some e) ->
  v = VNil /\
  (("" ∈ tail (Split path) /\ e = Errorf "Invalid path %q" [VString path]) \/
   (exists seen part rest n,
      let parts := (seen ++ part :: rest)%list in
      (path = Join parts \/ path = String "." (Join parts)) /\
      e = Errorf "Invalid path %q (found: %q; not found: %q)"
            [VString (Join parts); VString (Join seen);
             VString (Join (part :: rest))] /\
      Get root (Join seen) = Done (n, None) /\
      no_child n part)).
Proof.
  intros Hget. split; [exact (proj1 (Get_error _ _ _ _ Hget))|].
  destruct (decide ("" ∈ tail (Split path))) as [Ht|Ht].
  - left. split; [done|]. rewrite Get_eq, decide_True in Hget by done.
    by injection Hget as _ <-.
  - right. destruct (Get_segments path Ht) as (parts & Hg & Hne & Hin & Hsp & _).
    rewrite Hg in Hget. unfold get in Hget. rewrite drop_0 in Hget.
    destruct (get_from_diagnosis parts root [] root v e eq_refl Hget)
      as (seen & part & rest & n & Hparts & -> & Hdone & Hno).
    cbn [app] in Hparts. subst parts.
    exists seen, part, rest, n. cbn zeta. split; [|split; [|split; [|done]]].
    + destruct Hsp as [Hsp|Hsp]; [left|right]; rewrite <- (Join_Split path), Hsp;
        [done|].
      rewrite Join_cons by (by destruct seen). reflexivity.
    + unfold not_found. cbn [app]. by rewrite take_app_length, drop_app_length.
    + rewrite Get_Join.
      * unfold get. by rewrite drop_0.
      * intros Hd. apply Hne, elem_of_app. by left.
      * intros x Hx. apply (Split_no_dot path), Hin, elem_of_app. by left.
Qed.

(** ** What the normalizer accepts, and what it returns *)

Lemma normalize_raw_entries_error (kvs : list (value * value)) :
  forall node n e, normalize_raw_entries kvs node = (n, Some e) -> n = VNil.
Proof.
  induction kvs as [|[k x] kvs IH]; intros node n e; cbn [normalize_raw_entries];
    [done|].
  destruct k; try (by intros [= <- _]).
  destruct (normalizeValue x) as [item [e'|]]; [by intros [= <- _]|apply IH].
Qed.

(** An error of the normalizer comes with a nil node. *)
Lemma normalizeValue_error (raw n : value) (e : error) :
  normalizeValue raw = (n, Some e) -> n = VNil.
Proof.
  destruct raw; try (by intros [= <- _]); try done.
  - rewrite normalizeValue_list. by destruct (normalize_items l); intros [= <- _].
  - rewrite normalizeValue_map.
    by destruct (map_fold normalize_entry (inl ∅) m); intros [= <- _].
  - rewrite normalizeValue_raw_map. apply normalize_raw_entries_error.
Qed.

Lemma normalizeValue_supported_1 (raw : value) :
  (exists n, normalizeValue raw = (n, None)) -> supported raw.
Proof.
  induction raw as [|b|f|i|s|l IH|m IH|m IH|ty] using value_nested_ind;
    intros [n Hn]; try done; try constructor.
  - rewrite normalizeValue_list in Hn.
    destruct (normalize_items l) as [node|] eqn:Hl; [clear Hn|done].
    revert node Hl. induction l as [|x l IHl]; intros node; [constructor|].
    apply Forall_cons in IH as [Hx IH]. cbn [normalize_items].
    destruct (normalizeValue x) as [item [e|]] eqn:Hnx; [done|].
    destruct (normalize_items l) as [node'|] eqn:Hl; [|done].
    intros _. constructor; [apply Hx; by eexists|by eapply IHl].
  - rewrite normalizeValue_map in Hn.
    destruct (map_fold normalize_entry (inl ∅) m) as [node|] eqn:Hm; [clear Hn|done].
    revert IH node Hm.
    apply (map_fold_weak_ind (fun r m =>
      map_Forall (fun _ x => (exists n, normalizeValue x = (n, None)) -> supported x) m ->
      forall node, r = inl node -> map_Forall (fun _ => supported) m)).
    + intros _ node _. apply map_Forall_empty.
    + intros k x m' r Hk Hrec IH node.
      apply map_Forall_insert in IH as [Hx IH]; [|done].
      destruct r as [node'|]; cbn [normalize_entry]; [|done].
      destruct (normalizeValue x) as [item [e|]] eqn:Hnx; [done|].
      intros _. apply map_Forall_insert_2; [apply Hx; by eexists|by eapply Hrec].
  - rewrite normalizeValue_raw_map in Hn. revert Hn. generalize (∅ : gmap string value).
    induction m as [|[k x] kvs IHk]; intros node; [constructor|].
    apply Forall_cons in IH as [[_ Hx] IH]. cbn [snd] in Hx.
    cbn [normalize_raw_entries]. destruct k; try done.
    destruct (normalizeValue x) as [item [e|]] eqn:Hnx; [done|].
    intros Hrest. constructor; [|by eapply IHk].
    split; [by eexists|]. apply Hx. by eexists.
Qed.

Lemma normalizeValue_supported_2 (raw : value) :
  supported raw -> exists n, normalizeValue raw = (n, None).
Proof.
  induction raw as [|b|f|i|s|l IH|m IH|m IH|ty] using value_nested_ind;
    intros Hs; try (by eexists); try (by inversion Hs).
  - assert (Hl : Forall supported l) by (by inversion Hs). clear Hs.
    rewrite normalizeValue_list.
    enough (exists node, normalize_items l = inl node) as [node ->] by by eexists.
    induction l as [|x l IHl]; [by eexists|].
    apply Forall_cons in IH as [Hx IH]. apply Forall_cons in Hl as [Hsx Hl].
    destruct (Hx Hsx) as [item Hi]. destruct (IHl IH Hl) as [node Hn].
    cbn [normalize_items]. rewrite Hi, Hn. by eexists.
  - assert (Hm : map_Forall (fun _ => supported) m) by (by inversion Hs). clear Hs.
    rewrite normalizeValue_map.
    enough (exists node, map_fold normalize_entry (inl ∅) m = inl node)
      as [node ->] by by eexists.
    revert IH Hm.
    apply (map_fold_weak_ind (fun r m =>
      map_Forall (fun _ x => supported x -> exists n, normalizeValue x = (n, None)) m ->
      map_Forall (fun _ => supported) m -> exists node, r = inl node)).
    + intros _ _. by eexists.
    + intros k x m' r Hk Hrec IH Hm.
      apply map_Forall_insert in IH as [Hx IH]; [|done].
      apply map_Forall_insert in Hm as [Hsx Hm]; [|done].
      destruct (Hrec IH Hm) as [node ->]. destruct (Hx Hsx) as [item Hi].
      cbn [normalize_entry]. rewrite Hi. by eexists.
  - assert (Hm : Forall (fun kv => (exists key, kv.1 = VString key) /\ supported kv.2) m)
      by (by inversion Hs). clear Hs.
    rewrite normalizeValue_raw_map. generalize (∅ : gmap string value).
    induction m as [|[k x] kvs IHk]; intros node; [by eexists|].
    apply Forall_cons in IH as [[_ Hx] IH]. apply Forall_cons in Hm as [[[key Hk] Hsx] Hm].
    cbn [fst snd] in *. subst k. destruct (Hx Hsx) as [item Hi].
    cbn [normalize_raw_entries]. rewrite Hi. by apply IHk.
Qed.

(** X6.  The normalizer accepts a raw value exactly when the value holds no
    nil and no value of a type other than bool, float64, int, string, list
    and map, and every key of its [interface{}]-keyed maps is a string; when
    it refuses, the node it returns is nil. *)
Theorem normalizeValue_accepts (raw : value) :
  ((exists n, normalizeValue raw = (n, None)) <-> supported raw) /\
  (forall n e, normalizeValue raw = (n, Some e) -> n = VNil).
Proof.
  split; [split|].
  - apply normalizeValue_supported_1.
  - apply normalizeValue_supported_2.
  - apply normalizeValue_error.
Qed.

(** X7.  Normalizing twice is normalizing once: what the normalizer
    returns, it returns unchanged when given it again. *)
Theorem normalizeValue_idempotent (raw n : value) :
  normalizeValue raw = (n, None) -> normalizeValue n = (n, None).
Proof. intros Hn. by eapply normalizeValue_canonical_id, normalizeValue_canonical. Qed.

Lemma normalize_items_Forall2 (l : list value) :
  forall node, normalize_items l = inl node ->
               Forall2 (fun v item => normalizeValue v = (item, None)) l node.
Proof.
  induction l as [|x l IH]; intros node; cbn [normalize_items].
  - intros [= <-]. constructor.
  - destruct (normalizeValue x) as [item [e|]] eqn:Hx; [done|].
    destruct (normalize_items l) as [node'|]; [|done].
    intros [= <-]. constructor; [done|by apply IH].
Qed.

(** X8.  A list is normalized item by item: the result is a list of the
    same length whose [i]-th item is the normalized [i]-th item. *)
Theorem normalizeValue_list_items (l : list value) (n : value) :
  normalizeValue (VList l) = (n, None) ->
  exists items,
    n = VList items /\ length items = length l /\
    forall i v, l !! i = Some v ->
      exists item, items !! i = Some item /\ normalizeValue v = (item, None).
Proof.
  rewrite normalizeValue_list.
  destruct (normalize_items l) as [node|] eqn:Hl; [|done]. intros [= <-].
  apply normalize_items_Forall2 in Hl. exists node. split; [done|].
  split; [symmetry; by eapply Forall2_length|].
  intros i v Hv. destruct (Forall2_lookup_l _ _ _ _ _ Hl Hv) as (item & ? & ?).
  by exists item.
Qed.

(** X9.  The first item of a list that the normalizer refuses is the one
    the error names, with the format of list items; the items before it are
    accepted, and the error of the item itself is not passed on. *)
Theorem normalizeValue_list_error (l : list value) (n : value) (e : error) :
  normalizeValue (VList l) = (n, Some e) ->
  exists l1 v l2 e',
    l = (l1 ++ v :: l2)%list /\
    e = Errorf "Unsupported list item: %#v" [v] /\
    Forall (fun x => exists item, normalizeValue x = (item, None)) l1 /\
    normalizeValue v = (VNil, Some e').
Proof.
  rewrite normalizeValue_list.
  destruct (normalize_items l) as [|e0] eqn:Hl; [done|]. intros [= _ <-].
  induction l as [|x l IH]; [done|]. cbn [normalize_items] in Hl.
  destruct (normalizeValue x) as [item [e'|]] eqn:Hx.
  - injection Hl as <-. exists [], x, l, e'. split; [done|]. split; [done|].
    split; [constructor|]. by rewrite (normalizeValue_error _ _ _ Hx) in Hx.
  - destruct (normalize_items l) as [|e1] eqn:Hl'; [done|]. injection Hl as ->.
    destruct (IH eq_refl) as (l1 & v & l2 & e' & -> & -> & Hl1 & Hv).
    exists (x :: l1), v, l2, e'. split; [done|]. split; [done|].
    split; [|done]. constructor; [by eexists|done].
Qed.

(** X10.  A string-keyed map is normalized entry by entry: the result is a
    map with the same keys, each holding the normalized value of the key. *)
Theorem normalizeValue_map_entries (m : gmap string value) (n : value) :
  normalizeValue (VMap m) = (n, None) ->
  exists node,
    n = VMap node /\
    forall key item,
      node !! key = Some item <->
      exists v, m !! key = Some v /\ normalizeValue v = (item, None).
Proof.
  rewrite normalizeValue_map.
  destruct (map_fold normalize_entry (inl ∅) m) as [node|] eqn:Hm; [|done].
  intros [= <-]. exists node. split; [done|]. revert node Hm.
  apply (map_fold_weak_ind (fun r m =>
    forall node, r = inl node -> forall key item,
      node !! key = Some item <->
      exists v, m !! key = Some v /\ normalizeValue v = (item, None))).
  - intros node [= <-] key item. rewrite lookup_empty. split; [done|].
    by intros (v & Hv & _).
  - intros k x m' r Hk Hrec node. destruct r as [node'|]; cbn [normalize_entry];
      [|done].
    destruct (normalizeValue x) as [item' [e|]] eqn:Hx; [done|].
    intros [= <-] key item. rewrite lookup_insert.
    destruct (decide (k = key)) as [->|Hne].
    + split.
      * intros [= <-]. exists x. by rewrite lookup_insert_eq.
      * intros (v & Hv & Hn). rewrite lookup_insert_eq in Hv.
        injection Hv as <-. congruence.
    + rewrite (Hrec node' eq_refl key item).
      split; intros (v & Hv & Hn); exists v; split; try done.
      * by rewrite lookup_insert_ne.
      * by rewrite lookup_insert_ne in Hv.
Qed.

Lemma normalize_raw_entries_spec (kvs : list (value * value)) :
  forall node0 n,
    normalize_raw_entries kvs node0 = (n, None) ->
    exists node,
      n = VMap node /\
      (forall key item, node0 !! key = Some item -> VString key ∉ kvs.*1 ->
                        node !! key = Some item) /\
      (NoDup kvs.*1 -> forall key v, (VString key, v) ∈ kvs ->
         exists item, normalizeValue v = (item, None) /\ node !! key = Some item) /\
      (forall key item, node !! key = Some item ->
         node0 !! key = Some item \/
         exists v, (VString key, v) ∈ kvs /\ normalizeValue v = (item, None)).
Proof.
  induction kvs as [|[k x] kvs IH]; intros node0 n; cbn [normalize_raw_entries].
  - intros [= <-]. exists node0. split; [done|]. split; [done|].
    split; [|by left]. by intros _ key v ?%elem_of_nil.
  - destruct k as [| | | |key0| | | |]; try done.
    destruct (normalizeValue x) as [item0 [e|]] eqn:Hx; [done|]. intros Hrest.
    destruct (IH _ _ Hrest) as (node & -> & Ha & Hb & Hc).
    exists node. split; [done|]. cbn [fmap list_fmap fst]. split; [|split].
    + intros key item H0 Hnot. apply not_elem_of_cons in Hnot as [Hk Hnot].
      apply Ha; [|done]. rewrite lookup_insert_ne; [done|]. by intros ->.
    + intros [Hnot Hnd]%NoDup_cons key v [[= -> ->]|Hin]%elem_of_cons.
      * exists item0. split; [done|]. apply Ha; [|done]. by rewrite lookup_insert_eq.
      * by apply Hb.
    + intros key item Hn. destruct (Hc _ _ Hn) as [H1|(v & Hin & Hv)].
      * rewrite lookup_insert in H1. destruct (decide (key0 = key)) as [->|Hne].
        -- injection H1 as <-. right. exists x. split; [|done].
           apply elem_of_cons. by left.
        -- by left.
      * right. exists v. split; [|done]. apply elem_of_cons. by right.
Qed.

(** X11.  An [interface{}]-keyed map comes out as a string-keyed map: every
    entry of the result is the normalized value of an entry of the raw map
    under the same key, and, the keys of a map being distinct, every entry
    of the raw map is an entry of the result. *)
Theorem normalizeValue_raw_map_entries (kvs : list (value * value)) (n : value) :
  normalizeValue (VRawMap kvs) = (n, None) ->
  exists node,
    n = VMap node /\
    (forall key item, node !! key = Some item ->
       exists v, (VString key, v) ∈ kvs /\ normalizeValue v = (item, None)) /\
    (NoDup kvs.*1 -> forall key v, (VString key, v) ∈ kvs ->
       exists item, normalizeValue v = (item, None) /\ node !! key = Some item).
Proof.
  rewrite normalizeValue_raw_map. intros Hn.
  destruct (normalize_raw_entries_spec _ _ _ Hn) as (node & -> & _ & Hb & Hc).
  exists node. split; [done|]. split; [|done].
  intros key item Hk. destruct (Hc _ _ Hk) as [H0|?]; [|done].
  by rewrite lookup_empty in H0.
Qed.

(** ** Parsed configurations *)

Lemma get_from_canonical (rest : list string) :
  forall cfg parts pos n,
    canonical cfg -> get_from cfg parts pos rest = Done (n, None) -> canonical n.
Proof.
  induction rest as [|part rest IH]; intros cfg parts pos n Hc; cbn [get_from].
  - by intros [= <-].
  - destruct cfg; try done.
    + destruct (ParseInt part) as [idx|]; [|done].
      destruct (idx <? Z.of_nat (length l)); [|done].
      destruct (idx <? 0); [done|].
      destruct (l !! Z.to_nat idx) as [v|] eqn:Hl; [|done].
      apply IH. inversion Hc as [| | | |l' Hall|]; subst.
      by eapply Forall_lookup_1.
    + destruct (m !! part) as [v|] eqn:Hm; [|done].
      apply IH. inversion Hc as [| | | | |m' Hall]; subst. by eapply Hall.
Qed.

Lemma Get_canonical (root : value) (path : string) (n : value) :
  canonical root -> Get root path = Done (n, None) -> canonical n.
Proof.
  intros Hc. rewrite Get_eq. destruct (decide _); [done|].
  unfold get. apply get_from_canonical, Hc.
Qed.

(** X12.  A configuration that [Get] takes out of a configuration with a
    canonical root has a canonical root again: no nil, no [interface{}]-keyed
    map and no value of another type is met below a canonical root. *)
Theorem Config_Get_canonical (cfg sub : Config) (path : string) :
  canonical (Root cfg) ->
  Config_Get cfg path = Done (Some sub, None) ->
  canonical (Root sub).
Proof.
  intros Hc Hsub. apply Config_Get_success in Hsub. by eapply Get_canonical.
Qed.

Lemma parseJson_result (Unmarshal : string -> value * option error) (text : string) :
  ((exists cfg, parseJson Unmarshal text = (Some cfg, None)) \/
   (exists e, parseJson Unmarshal text = (None, Some e))) /\
  (forall out e, Unmarshal text = (out, Some e) ->
     parseJson Unmarshal text = (None, Some e)) /\
  (Unmarshal text = (VNil, None) ->
     parseJson Unmarshal text = (None, Some (Errorf "Unsupported type: %T" [VNil]))) /\
  (forall cfg, parseJson Unmarshal text = (Some cfg, None) ->
     canonical (Root cfg) /\
     forall path n, Get (Root cfg) path = Done (n, None) -> canonical n).
Proof.
  unfold parseJson. destruct (Unmarshal text) as [out [e|]] eqn:Hu.
  - split; [right; by eexists|]. split; [by intros ? ? [= <- <-]|].
    split; [done|]. by intros cfg.
  - destruct (normalizeValue out) as [n [e|]] eqn:Hn.
    + split; [right; by eexists|]. split; [done|].
      split; [intros [= ->]; by injection Hn as <- <-|]. by intros cfg.
    + split; [left; by eexists|]. split; [done|].
      split; [intros [= ->]; done|]. intros cfg [= <-]. cbn [Root].
      pose proof (normalizeValue_canonical _ _ Hn) as Hc.
      split; [done|]. intros path n'. by apply Get_canonical.
Qed.

(** X13.  [ParseJson] returns a configuration or an error, never both and
    never neither; the error of [json.Unmarshal] is passed on as it is; a
    document that unmarshals to nil (the JSON [null]) is refused with the
    unsupported-type error; and in a configuration it returns, the root and
    every node a path resolves to are canonical. *)
Theorem ParseJson_result (Unmarshal : string -> value * option error) (text : string) :
  ((exists cfg, ParseJson Unmarshal text = (Some cfg, None)) \/
   (exists e, ParseJson Unmarshal text = (None, Some e))) /\
  (forall out e, Unmarshal text = (out, Some e) ->
     ParseJson Unmarshal text = (None, Some e)) /\
  (Unmarshal text = (VNil, None) ->
     ParseJson Unmarshal text = (None, Some (Errorf "Unsupported type: %T" [VNil]))) /\
  (forall cfg, ParseJson Unmarshal text = (Some cfg, None) ->
     canonical (Root cfg) /\
     forall path n, Get (Root cfg) path = Done (n, None) -> canonical n).
Proof. apply parseJson_result. Qed.

(** X14.  [ParseYaml] returns a configuration or an error, never both and
    never neither; the error of [goyaml.Unmarshal] is passed on as it is; a
    document that unmarshals to nil is refused with the unsupported-type
    error; and in a configuration it returns, the root and
    every node a path resolves to are canonical, the [interface{}]-keyed
    maps of the YAML parser having become string-keyed maps. *)
Theorem ParseYaml_result (Unmarshal : string -> value * option error) (text : string) :
  ((exists cfg, ParseYaml Unmarshal text = (Some cfg, None)) \/
   (exists e, ParseYaml Unmarshal text = (None, Some e))) /\
  (forall out e, Unmarshal text = (out, Some e) ->
     ParseYaml Unmarshal text = (None, Some e)) /\
  (Unmarshal text = (VNil, None) ->
     ParseYaml Unmarshal text = (None, Some (Errorf "Unsupported type: %T" [VNil]))) /\
  (forall cfg, ParseYaml Unmarshal text = (Some cfg, None) ->
     canonical (Root cfg) /\
     forall path n, Get (Root cfg) path = Done (n, None) -> canonical n).
Proof.
  change (ParseYaml Unmarshal text) with (parseJson Unmarshal text).
  apply parseJson_result.
Qed.

(** ** How the typed accessors relate *)

Local Ltac by_node :=
  unfold Config_Bool, Config_Float64, Config_Int, Config_List, Config_Map,
    Config_String;
  match goal with
  | |- context [Get ?r ?p] =>
      let n := fresh "n" in let e := fresh "e" in
      destruct (Get r p) as [[n [e|]]|?]; cbn [go_bind]; [done| |done];
      destruct n
  end.

(** X15.  Whenever [Bool], [Int] or [Float64] succeeds on a path, [String]
    succeeds on it too; whenever [List] or [Map] succeeds, every other
    accessor fails on that path with a type-mismatch error. *)
Theorem accessors_by_kind
    (ParseFloat : string -> option float64) (cfg : Config) (path : string) :
  (forall b, Config_Bool cfg path = Done (b, None) ->
     exists s, Config_String cfg path = Done (s, None)) /\
  (forall i, Config_Int cfg path = Done (i, None) ->
     exists s, Config_String cfg path = Done (s, None)) /\
  (forall f, Config_Float64 ParseFloat cfg path = Done (f, None) ->
     exists s, Config_String cfg path = Done (s, None)) /\
  (forall l, Config_List cfg path = Done (l, None) ->
     Config_String cfg path = Done ("", Some (typeMismatch "string" (VList l))) /\
     Config_Bool cfg path = Done (false, Some (typeMismatch "bool" (VList l))) /\
     Config_Int cfg path = Done (0, Some (typeMismatch "int" (VList l))) /\
     Config_Float64 ParseFloat cfg path =
       Done (float64_zero, Some (typeMismatch "float64" (VList l))) /\
     Config_Map cfg path =
       Done (∅, Some (typeMismatch "map[string]interface{}" (VList l)))) /\
  (forall m, Config_Map cfg path = Done (m, None) ->
     Config_String cfg path = Done ("", Some (typeMismatch "string" (VMap m))) /\
     Config_Bool cfg path = Done (false, Some (typeMismatch "bool" (VMap m))) /\
     Config_Int cfg path = Done (0, Some (typeMismatch "int" (VMap m))) /\
     Config_Float64 ParseFloat cfg path =
       Done (float64_zero, Some (typeMismatch "float64" (VMap m))) /\
     Config_List cfg path =
       Done ([], Some (typeMismatch "[]interface{}" (VMap m)))).
Proof.
  split; [|split; [|split; [|split]]].
  - intros b. by_node; try done; intros _; by eexists.
  - intros i. by_node; try done; intros _; by eexists.
  - intros f. by_node; try done; intros _; by eexists.
  - intros l. by_node; try done. by intros [= ->].
  - intros m. by_node; try done. by intros [= ->].
Qed.

(** X16.  When [Int] returns [i] for a node that is not a string, [String]
    returns the decimal text of [i] for it; for a string node [String]
    returns the string, which [strconv.ParseInt] reads as [i]. *)
Theorem Int_String_agree (cfg : Config) (path : string) (i : Z) :
  Config_Int cfg path = Done (i, None) ->
  exists s,
    Config_String cfg path = Done (s, None) /\
    (s = Sprint_int i \/
     (Get (Root cfg) path = Done (VString s, None) /\ ParseInt s = Some i)).
Proof.
  unfold Config_Int, Config_String.
  destruct (Get (Root cfg) path) as [[n [e|]]|?]; cbn [go_bind]; [done| |done].
  destruct n; try done.
  - destruct (decide (Sprint_int (float64_to_int f) = Sprint_float64 f)) as [Heq|];
      [|done].
    intros [= <-]. exists (Sprint_float64 f). split; [done|]. by left.
  - intros [= <-]. exists (Sprint_int i0). split; [done|]. by left.
  - destruct (ParseInt s) as [v|] eqn:Hp; [|done]. intros [= <-].
    exists s. split; [done|]. by right.
Qed.

(** X17.  The text [String] returns for an int node is read back by [Int]
    as that int from any node holding the text as a string, and the text
    [String] returns for a bool node is read back by [Bool] as that bool. *)
Theorem String_read_back (cfg cfg' : Config) (path path' : string) :
  (forall i, minInt <= i <= maxInt ->
     Get (Root cfg) path = Done (VInt i, None) ->
     exists s, Config_String cfg path = Done (s, None) /\
               (Get (Root cfg') path' = Done (VString s, None) ->
                Config_Int cfg' path' = Done (i, None))) /\
  (forall b,
     Get (Root cfg) path = Done (VBool b, None) ->
     exists s, Config_String cfg path = Done (s, None) /\
               (Get (Root cfg') path' = Done (VString s, None) ->
                Config_Bool cfg' path' = Done (b, None))).
Proof.
  unfold Config_String, Config_Int, Config_Bool. split.
  - intros i Hi ->. cbn [go_bind]. eexists. split; [done|].
    intros ->. cbn [go_bind]. unfold Sprint_int. by rewrite ParseInt_decimal.
  - intros b ->. cbn [go_bind]. eexists. split; [done|].
    intros ->. cbn [go_bind]. by destruct b.
Qed.

(** ** More on the environment layer and on nested configurations *)

Lemma Get_leading_dot (root : value) (p : string) :
  Get root (String "." p) =
    if decide ("" ∈ Split p)
    then Done (VNil, Some (Errorf "Invalid path %q" [VString (String "." p)]))
    else Get root p.
Proof.
  rewrite (Get_eq root (String "." p)), Split_cons_dot. cbn [tail head].
  destruct (decide ("" ∈ Split p)) as [Hin|Hin]; [done|].
  rewrite decide_True by done. rewrite Get_eq.
  destruct (Split p) as [|h t] eqn:Hs; [by destruct (Split_not_nil p)|].
  cbn [tail head]. rewrite decide_False.
  - rewrite decide_False; [done|]. intros [= ->]. apply Hin, elem_of_cons. by left.
  - intros Ht. apply Hin, elem_of_cons. by right.
Qed.

Local Ltac split_cases :=
  repeat (match goal with
          | |- context [match ?x with _ => _ end] => destruct x
          end; cbn [go_bind]);
  try reflexivity.

Local Ltac env_unfold :=
  unfold EnvConfig_Bool, EnvConfig_Float64, EnvConfig_Int, EnvConfig_List,
    EnvConfig_Map, EnvConfig_String;
  unfold Config_Bool, Config_Float64, Config_Int, Config_List, Config_Map,
    Config_String.

(** X18.  With an empty environment label the environment layer adds
    nothing: each typed accessor returns, for every path, what the base
    accessor returns. *)
Theorem EnvConfig_empty_env
    (ParseFloat : string -> option float64) (c : EnvConfig) (p : string) :
  Env c = "" ->
  EnvConfig_Bool c p = Config_Bool (Cfg c) p /\
  EnvConfig_Float64 ParseFloat c p = Config_Float64 ParseFloat (Cfg c) p /\
  EnvConfig_Int c p = Config_Int (Cfg c) p /\
  EnvConfig_List c p = Config_List (Cfg c) p /\
  EnvConfig_Map c p = Config_Map (Cfg c) p /\
  EnvConfig_String c p = Config_String (Cfg c) p.
Proof.
  intros Henv. env_unfold. rewrite Henv.
  change ("" ++ "." ++ p) with (String "." p). rewrite Get_leading_dot.
  destruct (decide ("" ∈ Split p)); cbn [go_bind]; [by repeat split|].
  destruct (Get (Root (Cfg c)) p) as [[node [e|]]|x]; cbn [go_bind];
    [by repeat split| |by repeat split].
  repeat split; split_cases.
Qed.

Lemma Get_absent_root_key (m : gmap string value) (path k : string)
    (rest : list string) :
  Split path = k :: rest -> k <> "" -> m !! k = None ->
  exists e, Get (VMap m) path = Done (VNil, Some e).
Proof.
  intros Hs Hk Hm. rewrite Get_eq, Hs. cbn [tail head].
  destruct (decide ("" ∈ rest)); [by eexists|].
  rewrite decide_False by (intros [= ->]; done).
  unfold get. rewrite drop_0. cbn [get_from]. rewrite Hm. by eexists.
Qed.

(** X19.  When the root is a map without the key that the environment label
    starts with, no path is found under the label, and each typed accessor of
    the environment layer returns what the base accessor returns on the bare
    path. *)
Theorem EnvConfig_absent_section
    (ParseFloat : string -> option float64) (c : EnvConfig) (p : string)
    (m : gmap string value) (k : string) (rest : list string) :
  Root (Cfg c) = VMap m -> Split (Env c) = k :: rest -> k <> "" ->
  m !! k = None ->
  EnvConfig_Bool c p = Config_Bool (Cfg c) p /\
  EnvConfig_Float64 ParseFloat c p = Config_Float64 ParseFloat (Cfg c) p /\
  EnvConfig_Int c p = Config_Int (Cfg c) p /\
  EnvConfig_List c p = Config_List (Cfg c) p /\
  EnvConfig_Map c p = Config_Map (Cfg c) p /\
  EnvConfig_String c p = Config_String (Cfg c) p.
Proof.
  intros Hroot Hs Hk Hm.
  destruct (Get_absent_root_key m (Env c ++ "." ++ p) k (rest ++ Split p) )
    as [e He]; [by rewrite Split_app, Hs|done|done|].
  env_unfold. rewrite Hroot, He. cbn [go_bind]. by repeat split.
Qed.

(** Resolution in two stages, for [Get] on values. *)
Lemma Get_two_stages (root : value) (a b : string) (n : value) :
  "" ∉ Split b ->
  Get root (a ++ "." ++ b) = Done (n, None) <->
  exists mid, Get root a = Done (mid, None) /\ Get mid b = Done (n, None).
Proof.
  intros Hb.
  assert (Hgetb : forall mid, Get mid b = get mid (Split b) 0).
  { intros mid. rewrite Get_eq.
    rewrite decide_False.
    - rewrite decide_False; [done|]. destruct (Split b) as [|h t]; [done|].
      cbn [head]. intros [= ->]. apply Hb, elem_of_cons. by left.
    - intros Hin. apply Hb. destruct (Split b) as [|h t]; [done|].
      apply elem_of_cons. by right. }
  rewrite (Get_eq _ (a ++ "." ++ b)), (Get_eq _ a), Split_app.
  destruct (Split a) as [|h t] eqn:Ha; [by destruct (Split_not_nil a)|].
  cbn [app tail head].
  destruct (decide ("" ∈ t)) as [Ht|Ht].
  - rewrite decide_True by (apply elem_of_app; by left).
    split; [intros [=]|intros (mid & [=] & _)].
  - rewrite decide_False by (intros [?|?]%elem_of_app; done).
    assert (Hwalk : forall pa,
      get root (pa ++ Split b) 0 = Done (n, None) <->
      exists mid, get root pa 0 = Done (mid, None) /\
                  Get mid b = Done (n, None)).
    { intros pa. unfold get. rewrite !drop_0.
      rewrite (get_from_app pa (Split b) _ _ _ pa 0%nat (Split b) 0%nat).
      split; intros (mid & H1 & H2); exists mid; split; try done.
      - rewrite Hgetb. unfold get. by rewrite drop_0.
      - rewrite Hgetb in H2. unfold get in H2. by rewrite drop_0 in H2. }
    destruct (decide (Some h = Some "")); [apply Hwalk|apply (Hwalk (h :: t))].
Qed.

(** An accessor succeeds alike on two results of [Get] that succeed alike. *)
Lemma accessor_transfer {A : Type} (r1 r2 : go (value * option error)) (z : A)
    (F : value -> go (A * option error)) :
  (forall n, r1 = Done (n, None) <-> r2 = Done (n, None)) ->
  forall v,
    (let* (n, err) := r1 in
     match err with Some e => Done (z, Some e) | None => F n end) = Done (v, None)
    <->
    (let* (n, err) := r2 in
     match err with Some e => Done (z, Some e) | None => F n end) = Done (v, None).
Proof.
  intros H v.
  destruct r1 as [[n1 [e1|]]|x1]; cbn [go_bind].
  - destruct r2 as [[n2 [e2|]]|x2]; cbn [go_bind]; [done| |done].
    by pose proof (proj2 (H n2) eq_refl).
  - rewrite (proj1 (H n1) eq_refl). done.
  - destruct r2 as [[n2 [e2|]]|x2]; cbn [go_bind]; [done| |done].
    by pose proof (proj2 (H n2) eq_refl).
Qed.

(** X20.  Reading from a nested configuration is reading from the whole
    one: when [Get(a)] returns the configuration [sub] and [b] has no empty
    segment, each typed accessor succeeds with a value on [a.b] in the whole
    configuration exactly when it succeeds with that value on [b] in [sub]. *)
Theorem nested_accessors
    (ParseFloat : string -> option float64) (cfg sub : Config) (a b : string) :
  Config_Get cfg a = Done (Some sub, None) -> "" ∉ Split b ->
  (forall v, Config_Bool cfg (a ++ "." ++ b) = Done (v, None) <->
             Config_Bool sub b = Done (v, None)) /\
  (forall v, Config_Float64 ParseFloat cfg (a ++ "." ++ b) = Done (v, None) <->
             Config_Float64 ParseFloat sub b = Done (v, None)) /\
  (forall v, Config_Int cfg (a ++ "." ++ b) = Done (v, None) <->
             Config_Int sub b = Done (v, None)) /\
  (forall v, Config_List cfg (a ++ "." ++ b) = Done (v, None) <->
             Config_List sub b = Done (v, None)) /\
  (forall v, Config_Map cfg (a ++ "." ++ b) = Done (v, None) <->
             Config_Map sub b = Done (v, None)) /\
  (forall v, Config_String cfg (a ++ "." ++ b) = Done (v, None) <->
             Config_String sub b = Done (v, None)).
Proof.
  intros Hsub%Config_Get_success Hb.
  assert (H : forall n, Get (Root cfg) (a ++ "." ++ b) = Done (n, None) <->
                        Get (Root sub) b = Done (n, None)).
  { intros n. rewrite Get_two_stages by done. split.
    - intros (mid & Hmid & Hn). rewrite Hsub in Hmid. by injection Hmid as <-.
    - intros Hn. by exists (Root sub). }
  unfold Config_Bool, Config_Float64, Config_Int, Config_List, Config_Map,
    Config_String.
  split; [|split; [|split; [|split; [|split]]]];
    refine (accessor_transfer _ _ _ (fun n => _) H).
Qed.

(** ** The or-default accessors, and [Int] on special floats *)

Lemma Get_returns (root : value) (path : string) :
  (forall part idx, part ∈ Split path -> ParseInt part = Some idx -> 0 <= idx) ->
  exists n err, Get root path = Done (n, err).
Proof.
  intros Hall. destruct (Get root path) as [[n err]|x] eqn:Hg; [by eexists _, _|].
  exfalso. destruct (decide ("" ∈ tail (Split path))) as [Ht|Ht].
  - by rewrite Get_eq, decide_True in Hg.
  - destruct (Get_segments path Ht) as (parts & Hget & _ & Hin & _).
    rewrite Hget in Hg. unfold get in Hg. rewrite drop_0 in Hg.
    destruct (get_from_panic _ _ _ _ _ Hg) as (part & idx & len & Hp & Hi & Hneg & _).
    specialize (Hall part idx (Hin _ Hp) Hi). lia.
Qed.

Local Ltac returns_tac :=
  match goal with
  | H : forall part idx, part ∈ Split ?path -> _ |- context [Get ?r ?path] =>
      let n := fresh "n" in let err := fresh "err" in
      destruct (Get_returns r path H) as (n & err & ->); cbn [go_bind];
      destruct err; [by eexists _, _|]; destruct n; split_cases;
      by eexists _, _
  end.

Lemma accessors_return
    (ParseFloat : string -> option float64) (cfg : Config) (path : string) :
  (forall part idx, part ∈ Split path -> ParseInt part = Some idx -> 0 <= idx) ->
  (exists v err, Config_Bool cfg path = Done (v, err)) /\
  (exists v err, Config_Float64 ParseFloat cfg path = Done (v, err)) /\
  (exists v err, Config_Int cfg path = Done (v, err)) /\
  (exists v err, Config_List cfg path = Done (v, err)) /\
  (exists v err, Config_Map cfg path = Done (v, err)) /\
  (exists v err, Config_String cfg path = Done (v, err)).
Proof.
  intros Hall.
  unfold Config_Bool, Config_Float64, Config_Int, Config_List, Config_Map,
    Config_String.
  repeat split; returns_tac.
Qed.

Lemma fallback_returns {A : Type} (first second : go (A * option error))
    (defaults : list A) (zero : A) :
  (exists v err, first = Done (v, err)) ->
  (exists v err, second = Done (v, err)) ->
  exists v,
    or_default
      (let* (val, err) := first in
       match err with Some _ => second | None => Done (val, err) end)
      defaults zero = Done v.
Proof.
  intros (v1 & err1 & ->) (v2 & err2 & ->). unfold or_default. cbn [go_bind].
  destruct err1; cbn [go_bind]; [destruct err2|]; by eexists.
Qed.

(** X21.  The or-default accessors of the environment layer return a value,
    never an error, for every path none of whose segments, nor a segment of
    the environment label, parses as a negative integer; the value is the one
    of the accessor when it succeeds, whatever the defaults, and otherwise the
    first default, or the zero value when no default is given. *)
Theorem EnvConfig_U_returns
    (ParseFloat : string -> option float64) (c : EnvConfig) (p : string) :
  (forall part idx, part ∈ (Split (Env c) ++ Split p)%list ->
     ParseInt part = Some idx -> 0 <= idx) ->
  (forall ds, exists v, EnvConfig_UBool c p ds = Done v) /\
  (forall ds, exists v, EnvConfig_UFloat64 ParseFloat c p ds = Done v) /\
  (forall ds, exists v, EnvConfig_UInt c p ds = Done v) /\
  (forall ds, exists v, EnvConfig_UList c p ds = Done v) /\
  (forall ds, exists v, EnvConfig_UMap c p ds = Done v) /\
  (forall ds, exists v, EnvConfig_UString c p ds = Done v) /\
  (forall ds v, EnvConfig_String c p = Done (v, None) ->
     EnvConfig_UString c p ds = Done v) /\
  (forall ds v e, EnvConfig_String c p = Done (v, Some e) ->
     EnvConfig_UString c p ds = Done (hd "" ds)) /\
  (forall ds v, EnvConfig_Int c p = Done (v, None) ->
     EnvConfig_UInt c p ds = Done v) /\
  (forall ds v e, EnvConfig_Int c p = Done (v, Some e) ->
     EnvConfig_UInt c p ds = Done (hd 0 ds)).
Proof.
  intros Hall.
  assert (H1 : forall part idx, part ∈ Split (Env c ++ "." ++ p) ->
                 ParseInt part = Some idx -> 0 <= idx)
    by (by rewrite Split_app).
  assert (H2 : forall part idx, part ∈ Split p -> ParseInt part = Some idx -> 0 <= idx).
  { intros part idx Hin. apply Hall, elem_of_app. by right. }
  destruct (accessors_return ParseFloat (Cfg c) _ H1) as (B1 & F1 & I1 & L1 & M1 & S1).
  destruct (accessors_return ParseFloat (Cfg c) _ H2) as (B2 & F2 & I2 & L2 & M2 & S2).
  unfold EnvConfig_UBool, EnvConfig_UFloat64, EnvConfig_UInt, EnvConfig_UList,
    EnvConfig_UMap, EnvConfig_UString.
  split; [intros ds; by apply fallback_returns|].
  split; [intros ds; by apply fallback_returns|].
  split; [intros ds; by apply fallback_returns|].
  split; [intros ds; by apply fallback_returns|].
  split; [intros ds; by apply fallback_returns|].
  split; [intros ds; by apply fallback_returns|].
  unfold or_default.
  repeat split; intros; match goal with H : _ = Done _ |- _ => by rewrite H end.
Qed.

(** X22.  [Int] refuses a float node that holds NaN, an infinity or the
    negative zero, with the type-mismatch error; the positive zero it
    returns as 0. *)
Theorem Int_special_floats (cfg : Config) (path : string) (f : float64) :
  Get (Root cfg) path = Done (VFloat64 f, None) ->
  (f = S754_nan \/ (exists s, f = S754_infinity s) \/ f = S754_zero true ->
     Config_Int cfg path = Done (0, Some (typeMismatch "int" (VFloat64 f)))) /\
  (f = S754_zero false -> Config_Int cfg path = Done (0, None)).
Proof.
  intros Hget. unfold Config_Int. rewrite Hget. cbn [go_bind]. split.
  - intros [->|[[s ->]| ->]]; [|destruct s|]; by vm_compute.
  - intros ->. by vm_compute.
Qed.

(** * The further properties at concrete inputs *)

Local Ltac segments_nonneg segs :=
  let part := fresh "part" in let idx := fresh "idx" in
  let Hin := fresh "Hin" in let Hp := fresh "Hp" in
  intros part idx Hin Hp;
  match type of Hin with _ ∈ ?l => change l with segs in Hin end;
  repeat (apply elem_of_cons in Hin as [->|Hin];
          [vm_compute in Hp; first [discriminate Hp|injection Hp as <-; lia]|]);
  by apply elem_of_nil in Hin.

Lemma Get_map_key_witness :
  Get hosts "host" = Done (VString "h2", None) /\
  Get hosts "port" =
    Done (VNil, Some (Errorf "Invalid path %q (found: %q; not found: %q)"
                        [VString "port"; VString ""; VString "port"])).
Proof.
  split.
  - etrans; [refine (Get_map_key
      {[ "dev" := VMap {[ "host" := VString "h1" ]}; "host" := VString "h2" ]}
      "host" _ _)|]; by vm_compute.
  - etrans; [refine (Get_map_key
      {[ "dev" := VMap {[ "host" := VString "h1" ]}; "host" := VString "h2" ]}
      "port" _ _)|]; by vm_compute.
Defined.

Lemma Get_list_decimal_index_witness :
  Get (VList [VInt 10; VInt 20; VInt 30]) (Sprint_int 1) = Done (VInt 20, None) /\
  Get (VList [VInt 10; VInt 20; VInt 30]) (Sprint_int 3) =
    Done (VNil, Some (Errorf "Invalid path %q (found: %q; not found: %q)"
                        [VString (Sprint_int 3); VString ""; VString (Sprint_int 3)])).
Proof.
  split.
  - refine (Get_list_decimal_index [VInt 10; VInt 20; VInt 30] 1 _).
    split; by vm_compute.
  - refine (Get_list_decimal_index [VInt 10; VInt 20; VInt 30] 3 _).
    split; by vm_compute.
Defined.

Lemma Get_ignores_dotted_key_witness :
  Get (VMap {[ "a.b" := VInt 1; "a" := VInt 2 ]}) "a.b" =
  Get (VMap (delete "a.b" {[ "a.b" := VInt 1; "a" := VInt 2 ]})) "a.b".
Proof.
  refine (Get_ignores_dotted_key {[ "a.b" := VInt 1; "a" := VInt 2 ]}
            "a.b" "a.b" _ _); [by right|discriminate].
Defined.

Lemma Get_panics_only_on_negative_index_witness :
  (exists part idx len,
     part ∈ Split "-1" /\ ParseInt part = Some idx /\ idx < 0 /\
     IndexOutOfRange (-1) 0 = IndexOutOfRange idx len) /\
  (exists n err, Get (tree (VInt 10) (VInt 20) (VInt 30)) "a.b.1" = Done (n, err)).
Proof.
  split.
  - refine (proj1 (Get_panics_only_on_negative_index (VList []) "-1") _ _).
    by vm_compute.
  - refine (proj2 (Get_panics_only_on_negative_index
                     (tree (VInt 10) (VInt 20) (VInt 30)) "a.b.1") _).
    segments_nonneg ["a"; "b"; "1"].
Defined.

Lemma Get_error_diagnosis_witness :
  VNil = VNil /\
  (("" ∈ tail (Split "a.b.5") /\
    not_found ["a"; "b"; "5"] 2 = Errorf "Invalid path %q" [VString "a.b.5"]) \/
   (exists seen part rest n,
      let parts := (seen ++ part :: rest)%list in
      ("a.b.5" = Join parts \/ "a.b.5" = String "." (Join parts)) /\
      not_found ["a"; "b"; "5"] 2 =
        Errorf "Invalid path %q (found: %q; not found: %q)"
          [VString (Join parts); VString (Join seen);
           VString (Join (part :: rest))] /\
      Get (tree (VInt 10) (VInt 20) (VInt 30)) (Join seen) = Done (n, None) /\
      no_child n part)).
Proof.
  refine (Get_error_diagnosis (tree (VInt 10) (VInt 20) (VInt 30)) "a.b.5"
            VNil (not_found ["a"; "b"; "5"] 2) _).
  by vm_compute.
Defined.

Lemma normalizeValue_accepts_witness :
  supported (VRawMap [(VString "port", VInt 8080)]) /\
  (exists n, normalizeValue (VList [VInt 1; VString "x"]) = (n, None)).
Proof.
  split.
  - refine (proj1 (proj1 (normalizeValue_accepts
                            (VRawMap [(VString "port", VInt 8080)]))) _).
    eexists. by vm_compute.
  - refine (proj2 (proj1 (normalizeValue_accepts
                            (VList [VInt 1; VString "x"]))) _).
    repeat constructor.
Defined.

Lemma normalizeValue_idempotent_witness :
  normalizeValue (VMap {[ "port" := VInt 8080 ]}) =
    (VMap {[ "port" := VInt 8080 ]}, None).
Proof.
  refine (normalizeValue_idempotent (VRawMap [(VString "port", VInt 8080)])
            (VMap {[ "port" := VInt 8080 ]}) _).
  by vm_compute.
Defined.

Lemma normalizeValue_list_items_witness :
  exists items,
    VList [VInt 1; VMap ∅] = VList items /\
    length items = length [VInt 1; VRawMap []] /\
    forall i v, [VInt 1; VRawMap []] !! i = Some v ->
      exists item, items !! i = Some item /\ normalizeValue v = (item, None).
Proof.
  refine (normalizeValue_list_items [VInt 1; VRawMap []]
            (VList [VInt 1; VMap ∅]) _).
  by vm_compute.
Defined.

Lemma normalizeValue_list_error_witness :
  exists l1 v l2 e',
    [VInt 1; VList [VNil]; VOther "chan int"] = (l1 ++ v :: l2)%list /\
    Errorf "Unsupported list item: %#v" [VList [VNil]] =
      Errorf "Unsupported list item: %#v" [v] /\
    Forall (fun x => exists item, normalizeValue x = (item, None)) l1 /\
    normalizeValue v = (VNil, Some e').
Proof.
  refine (normalizeValue_list_error [VInt 1; VList [VNil]; VOther "chan int"]
            VNil (Errorf "Unsupported list item: %#v" [VList [VNil]]) _).
  by vm_compute.
Defined.

Lemma normalizeValue_map_entries_witness :
  exists node,
    VMap {[ "a" := VInt 1 ]} = VMap node /\
    forall key item,
      node !! key = Some item <->
      exists v, ({[ "a" := VInt 1 ]} : gmap string value) !! key = Some v /\
                normalizeValue v = (item, None).
Proof.
  refine (normalizeValue_map_entries {[ "a" := VInt 1 ]}
            (VMap {[ "a" := VInt 1 ]}) _).
  by vm_compute.
Defined.

Lemma normalizeValue_raw_map_entries_witness :
  exists item,
    normalizeValue (VInt 8080) = (item, None) /\
    ({[ "port" := VInt 8080 ]} : gmap string value) !! "port" = Some item.
Proof.
  destruct (normalizeValue_raw_map_entries [(VString "port", VInt 8080)]
              (VMap {[ "port" := VInt 8080 ]})) as (node & Hn & _ & Hall).
  - by vm_compute.
  - injection Hn as <-. apply Hall.
    + apply NoDup_singleton.
    + apply list_elem_of_singleton. reflexivity.
Defined.

Lemma Config_Get_canonical_witness :
  canonical (VMap {[ "host" := VString "h1" ]}).
Proof.
  refine (Config_Get_canonical {| Root := hosts |}
            {| Root := VMap {[ "host" := VString "h1" ]} |} "dev" _ _).
  - apply (normalizeValue_canonical hosts). by vm_compute.
  - by vm_compute.
Defined.

Lemma ParseJson_result_witness :
  canonical hosts /\
  forall path n, Get hosts path = Done (n, None) -> canonical n.
Proof.
  refine (proj2 (proj2 (proj2 (ParseJson_result (fun _ => (hosts, None)) "")))
            {| Root := hosts |} _).
  by vm_compute.
Defined.

Lemma ParseYaml_result_witness :
  canonical (VMap {[ "port" := VInt 8080 ]}) /\
  forall path n,
    Get (VMap {[ "port" := VInt 8080 ]}) path = Done (n, None) -> canonical n.
Proof.
  refine (proj2 (proj2 (proj2 (ParseYaml_result
            (fun _ => (VRawMap [(VString "port", VInt 8080)], None)) "")))
            {| Root := VMap {[ "port" := VInt 8080 ]} |} _).
  by vm_compute.
Defined.

Lemma accessors_by_kind_witness :
  (exists s, Config_String {| Root := VString "true" |} "" = Done (s, None)) /\
  Config_Int {| Root := VList [VInt 1] |} "" =
    Done (0, Some (typeMismatch "int" (VList [VInt 1]))).
Proof.
  split.
  - refine (proj1 (accessors_by_kind (fun _ => None)
                     {| Root := VString "true" |} "") true _).
    by vm_compute.
  - refine (proj1 (proj2 (proj2 (proj1 (proj2 (proj2 (proj2
              (accessors_by_kind (fun _ => None) {| Root := VList [VInt 1] |} ""))))
              [VInt 1] _)))).
    by vm_compute.
Defined.

Lemma Int_String_agree_witness :
  exists s,
    Config_String {| Root := VFloat64 f42 |} "" = Done (s, None) /\
    (s = Sprint_int 42 \/
     (Get (VFloat64 f42) "" = Done (VString s, None) /\ ParseInt s = Some 42)).
Proof.
  refine (Int_String_agree {| Root := VFloat64 f42 |} "" 42 _). by vm_compute.
Defined.

Lemma String_read_back_witness :
  exists s,
    Config_String {| Root := VInt (-42) |} "" = Done (s, None) /\
    (Get (VMap {[ "n" := VString "-42" ]}) "n" = Done (VString s, None) ->
     Config_Int {| Root := VMap {[ "n" := VString "-42" ]} |} "n" = Done (-42, None)).
Proof.
  refine (proj1 (String_read_back {| Root := VInt (-42) |}
                   {| Root := VMap {[ "n" := VString "-42" ]} |} "" "n")
            (-42) _ _).
  - split; by vm_compute.
  - by vm_compute.
Defined.

Lemma EnvConfig_empty_env_witness :
  EnvConfig_String {| Env := ""; Cfg := {| Root := hosts |} |} "host" =
  Config_String {| Root := hosts |} "host".
Proof.
  refine (proj2 (proj2 (proj2 (proj2 (proj2
            (EnvConfig_empty_env (fun _ => None)
               {| Env := ""; Cfg := {| Root := hosts |} |} "host" _)))))).
  reflexivity.
Defined.

Lemma EnvConfig_absent_section_witness :
  EnvConfig_String prod "host" = Config_String (Cfg prod) "host".
Proof.
  refine (proj2 (proj2 (proj2 (proj2 (proj2
            (EnvConfig_absent_section (fun _ => None) prod "host"
               {[ "dev" := VMap {[ "host" := VString "h1" ]}; "host" := VString "h2" ]}
               "prod" [] _ _ _ _)))))).
  - reflexivity.
  - reflexivity.
  - discriminate.
  - by vm_compute.
Defined.

Lemma nested_accessors_witness :
  Config_String {| Root := hosts |} ("dev" ++ "." ++ "host") = Done ("h1", None) <->
  Config_String {| Root := VMap {[ "host" := VString "h1" ]} |} "host"
    = Done ("h1", None).
Proof.
  refine (proj2 (proj2 (proj2 (proj2 (proj2
            (nested_accessors (fun _ => None) {| Root := hosts |}
               {| Root := VMap {[ "host" := VString "h1" ]} |} "dev" "host" _ _)))))
            "h1").
  - by vm_compute.
  - apply (bool_decide_unpack _). by vm_compute.
Defined.

Lemma EnvConfig_U_returns_witness :
  exists v, EnvConfig_UString dev "host" ["fallback"] = Done v.
Proof.
  refine (proj1 (proj2 (proj2 (proj2 (proj2 (proj2
            (EnvConfig_U_returns (fun _ => None) dev "host" _))))))
            ["fallback"]).
  segments_nonneg ["dev"; "host"].
Defined.

Lemma Int_special_floats_witness :
  Config_Int {| Root := VFloat64 (S754_zero true) |} "" =
    Done (0, Some (typeMismatch "int" (VFloat64 (S754_zero true)))).
Proof.
  refine (proj1 (Int_special_floats {| Root := VFloat64 (S754_zero true) |} ""
                   (S754_zero true) _) _).
  - reflexivity.
  - right. by right.
Defined.
